(** * Web-News-Provenance: the record materializer and the recommendation
      pipeline of [backend/Nepr/api/services/sparql_service.py]

    A shallow embedding of [SPARQLService]: Python dictionaries are finite
    maps with string keys, Python integers are [Z], Python floats are
    idealised as exact rationals [Q], and exceptions are an explicit
    outcome type.  A Python [str] is the [string] of its UTF-8 bytes.  The
    properties of the specification are stated and settled against these
    definitions. *)

From stdpp Require Import gmap strings list fin_maps sorting.
From Stdlib Require Import Ascii String QArith Qround Lqa.

Local Open Scope string_scope.
Local Open Scope Z_scope.

(** ** Python values *)

(** The exception classes the service can meet. *)
Inductive exn :=
  | KeyError | ValueError | TypeError | AttributeError | IndexError | OverflowError
  | RequestException.

Inductive outcome (A : Type) :=
  | Ok (a : A)
  | Raise (e : exn).
Arguments Ok {A} a.
Arguments Raise {A} e.

Definition outcome_bind {A B} (r : outcome A) (k : A -> outcome B) : outcome B :=
  match r with
  | Ok a => k a
  | Raise e => Raise e
  end.

(** Values stored inside an embedded entity (person, organization, media). *)
Inductive pyval :=
  | PyNone
  | PyStr (s : string)
  | PyInt (z : Z).

#[global] Instance pyval_eq_dec : EqDecision pyval.
Proof. solve_decision. Defined.

(** An entity dictionary such as [person_data]. *)
Abbreviation dict := (gmap string pyval).

(** Elements of a list held by an article: keyword strings or entities. *)
Inductive item :=
  | IStr (s : string)
  | IDict (d : dict).

#[global] Instance item_eq_dec : EqDecision item.
Proof. solve_decision. Defined.

(** Values held by an article dictionary. *)
Inductive aval :=
  | VNone
  | VStr (s : string)
  | VInt (z : Z)
  | VFloat (q : Q)
  | VList (l : list item)
  | VDict (d : dict).

(** An article dictionary such as [article_data]. *)
Abbreviation article := (gmap string aval).

(** Python truthiness. *)
Definition truthy (v : option aval) : bool :=
  match v with
  | None | Some VNone => false
  | Some (VStr s) => negb (String.eqb s "")
  | Some (VInt z) => negb (z =? 0)
  | Some (VFloat q) => negb (Qeq_bool q 0)
  | Some (VList l) => match l with [] => false | _ :: _ => true end
  | Some (VDict d) => negb (bool_decide (d = ∅))
  end.

(** One binding row of [SELECT ?p ?o ?subP ?subO]: [?p] and [?o] are always
    bound, the second hop is optional. *)
Record Tuple := {
  t_p : string;
  t_o : string;
  t_subP : option string;
  t_subO : option string
}.

#[global] Instance Tuple_eq_dec : EqDecision Tuple.
Proof. solve_decision. Defined.

(** ** [int(...)] on a string

    Python's [int] on ASCII text: the white space around the literal is
    stripped (tab, line feed, vertical tab, form feed, carriage return and
    space; the separators U+001C-U+001F are not), an optional sign follows,
    then decimal digits, single underscores being allowed between digits.
    [int(None)] raises [TypeError], malformed text raises [ValueError].

    On text with characters outside ASCII, [int] also accepts the decimal
    digits and the white space of every script, and on literals of more
    than 4300 digits it raises [ValueError]: [parse_int] stands for [int] on
    the ASCII literals of at most 4300 characters ([ascii_literal]), and the
    properties that read integers are stated for those. *)

(** [Py_ISSPACE], the white space [int] strips from ASCII text. *)
Definition is_ascii_space (c : ascii) : bool :=
  let n := nat_of_ascii c in
  ((9 <=? n)%nat && (n <=? 13)%nat) || (n =? 32)%nat.

(** The one-byte characters [str.split] and [str.isspace] take for white
    space: U+0009-U+000D and U+001C-U+0020. *)
Definition is_space (c : ascii) : bool :=
  let n := nat_of_ascii c in
  ((9 <=? n)%nat && (n <=? 13)%nat) || ((28 <=? n)%nat && (n <=? 32)%nat).

Definition ascii_text (s : string) : Prop :=
  Forall (fun c => (nat_of_ascii c < 128)%nat) (list_ascii_of_string s).

Definition ascii_literal (s : string) : Prop :=
  ascii_text s ∧ (String.length s <= 4300)%nat.

Definition digit_of (c : ascii) : option Z :=
  let n := nat_of_ascii c in
  if ((48 <=? n)%nat && (n <=? 57)%nat)%bool then Some (Z.of_nat (n - 48)) else None.

Fixpoint lstrip (s : string) : string :=
  match s with
  | String c rest => if is_ascii_space c then lstrip rest else s
  | EmptyString => EmptyString
  end.

Fixpoint rstrip (s : string) : string :=
  match s with
  | String c rest =>
      match rstrip rest with
      | EmptyString => if is_ascii_space c then EmptyString else String c EmptyString
      | r => String c r
      end
  | EmptyString => EmptyString
  end.

Fixpoint parse_digits (s : string) (acc : Z) (after_digit : bool) : option Z :=
  match s with
  | EmptyString => if after_digit then Some acc else None
  | String c rest =>
      match digit_of c with
      | Some d => parse_digits rest (10 * acc + d) true
      | None =>
          if (Ascii.eqb c "_" && after_digit)%bool
          then parse_digits rest acc false
          else None
      end
  end.

Definition parse_int (s : string) : option Z :=
  match rstrip (lstrip s) with
  | String "-" rest => Z.opp <$> parse_digits rest 0 false
  | String "+" rest => parse_digits rest 0 false
  | body => parse_digits body 0 false
  end.

Definition py_int (v : option string) : outcome Z :=
  match v with
  | None => Raise TypeError
  | Some s =>
      match parse_int s with
      | Some z => Ok z
      | None => Raise ValueError
      end
  end.

(** ** Sub-entity builders

    Every builder starts from a fixed-shape dictionary whose values are
    [None], collects the second-hop pairs of all rows whose object is the
    object of the current row, and assigns them by sub-predicate.  A field
    table lists, in the order of the source's [elif] chain, the
    sub-predicate, the key it assigns and whether the value goes through
    [int]. *)

Definition field_table := list (string * (string * bool)).

Fixpoint table_lookup (tbl : field_table) (sp : string) : option (string * bool) :=
  match tbl with
  | [] => None
  | (uri, kf) :: rest => if decide (sp = uri) then Some kf else table_lookup rest sp
  end.

Definition str_val (so : option string) : pyval :=
  match so with
  | Some s => PyStr s
  | None => PyNone
  end.

(** One iteration of [for sub_predicate, sub_object_value in zip(...)]. *)
Definition assign_field (tbl : field_table) (d : dict)
    (row : option string * option string) : outcome dict :=
  match row.1 with
  | None => Ok d
  | Some sp =>
      match table_lookup tbl sp with
      | None => Ok d
      | Some (key, false) => Ok (<[key := str_val row.2]> d)
      | Some (key, true) =>
          outcome_bind (py_int row.2) (fun z => Ok (<[key := PyInt z]> d))
      end
  end.

Definition sub_rows (subject : string) (results : list Tuple)
    : list (option string * option string) :=
  let sub_predicates :=
    t_subP <$> filter (fun r => t_o r = subject) results in
  let sub_objects :=
    t_subO <$> filter (fun r => t_o r = subject) results in
  zip sub_predicates sub_objects.

Definition populate_entity (tbl : field_table) (init : dict)
    (result : Tuple) (results : list Tuple) : outcome dict :=
  let subject := t_o result in
  fold_left (fun acc row => outcome_bind acc (fun d => assign_field tbl d row))
    (sub_rows subject results) (Ok init).

Definition none_dict (keys : list string) : dict :=
  list_to_map ((fun k => (k, PyNone)) <$> keys).

Definition person_data : dict :=
  none_dict ["name"; "@type"; "jobTitle"; "address"; "affiliation";
             "birthDate"; "birthPlace"; "deathDate"; "deathPlace"; "email";
             "familyName"; "gender"; "givenName"; "nationality"].

Definition person_fields : field_table :=
  [ ("http://schema.org/name", ("name", false));
    ("http://schema.org/@type", ("@type", false));
    ("http://schema.org/jobTitle", ("jobTitle", false));
    ("http://schema.org/address", ("address", false));
    ("http://schema.org/affiliation", ("affiliation", false));
    ("http://schema.org/birthDate", ("birthDate", false));
    ("http://schema.org/birthPlace", ("birthPlace", false));
    ("http://schema.org/deathDate", ("deathDate", false));
    ("http://schema.org/deathPlace", ("deathPlace", false));
    ("http://schema.org/email", ("email", false));
    ("http://schema.org/familyName", ("familyName", false));
    ("http://schema.org/gender", ("gender", false));
    ("http://schema.org/givenName", ("givenName", false));
    ("http://schema.org/nationality", ("nationality", false)) ].

Definition populate_person (result : Tuple) (results : list Tuple) : outcome dict :=
  populate_entity person_fields person_data result results.

Definition image_data : dict := none_dict ["height"; "width"; "url"; "@type"].

Definition image_fields : field_table :=
  [ ("http://schema.org/height", ("height", true));
    ("http://schema.org/width", ("width", true));
    ("http://schema.org/@type", ("@type", false));
    ("http://schema.org/url", ("url", false)) ].

Definition populate_image_data (result : Tuple) (results : list Tuple) : outcome dict :=
  populate_entity image_fields image_data result results.

Definition organization_data : dict :=
  none_dict ["name"; "@type"; "address"; "affiliation"; "email"].

Definition organization_fields : field_table :=
  [ ("http://schema.org/name", ("name", false));
    ("http://schema.org/@type", ("@type", false));
    ("http://schema.org/address", ("address", false));
    ("http://schema.org/affiliation", ("affiliation", false));
    ("http://schema.org/email", ("email", false)) ].

Definition populate_organization (result : Tuple) (results : list Tuple) : outcome dict :=
  populate_entity organization_fields organization_data result results.

(** [populate_audio_data] and [populate_video_data] are reached with
    arguments of either Python type, so their parameters are dynamic: a
    binding row (a [dict]) or the list of all rows. *)
Inductive pyarg :=
  | ARow (r : Tuple)
  | ARows (rs : list Tuple).

Definition media_data : dict :=
  none_dict ["caption"; "transcript"; "@type"; "contentUrl"; "duration";
             "embedUrl"; "height"; "uploadDate"; "width"].

Definition media_fields : field_table :=
  [ ("http://schema.org/caption", ("caption", false));
    ("http://schema.org/transcript", ("transcript", false));
    ("http://schema.org/@type", ("@type", false));
    ("http://schema.org/contentUrl", ("contentUrl", false));
    ("http://schema.org/duration", ("duration", false));
    ("http://schema.org/embedUrl", ("embedUrl", false));
    ("http://schema.org/height", ("height", true));
    ("http://schema.org/uploadDate", ("uploadDate", false));
    ("http://schema.org/width", ("width", true)) ].

(** [result.get('o', {})] needs [result] to be a dictionary: a list has no
    attribute [get].  Iterating a dictionary in the place of [results]
    yields its keys, and a string has no attribute [get] either; a binding
    row always has the keys [p] and [o]. *)
Definition populate_media (result results : pyarg) : outcome dict :=
  match result with
  | ARows _ => Raise AttributeError
  | ARow r =>
      match results with
      | ARow _ => Raise AttributeError
      | ARows rs => populate_entity media_fields media_data r rs
      end
  end.

Definition populate_audio_data (result results : pyarg) : outcome dict :=
  populate_media result results.

Definition populate_video_data (result results : pyarg) : outcome dict :=
  populate_media result results.

(** ** A state-and-exception monad

    A computation reads and writes a state and either returns a value or
    raises; what it has written before raising stays written. *)

Definition St (S A : Type) := S -> outcome A * S.

Definition ret {S A} (x : A) : St S A := fun s => (Ok x, s).

Definition bind {S A B} (m : St S A) (k : A -> St S B) : St S B :=
  fun s =>
    match m s with
    | (Ok x, s') => k x s'
    | (Raise e, s') => (Raise e, s')
    end.

Definition lift {S A} (r : outcome A) : St S A := fun s => (r, s).

Declare Scope py_scope.
Delimit Scope py_scope with py.
Notation "x <- m ;; k" := (bind m (fun x => k))
  (at level 100, m at next level, right associativity) : py_scope.
Notation "m ;;; k" := (bind m (fun _ => k))
  (at level 100, right associativity) : py_scope.
Local Open Scope py_scope.

(** ** The loop body of [populate_article_data]

    The body of the [for] loop mutates [article_data]. *)

Definition M (A : Type) := St article A.

(** [article_data[k] = v] *)
Definition setitem (k : string) (v : aval) : M unit :=
  fun a => (Ok tt, <[k := v]> a).

(** [article_data[k]] *)
Definition getitem (k : string) : M aval :=
  fun a =>
    match a !! k with
    | Some v => (Ok v, a)
    | None => (Raise KeyError, a)
    end.

(** [if k not in article_data: article_data[k] = v] *)
Definition setdefault (k : string) (v : aval) : M unit :=
  fun a =>
    match a !! k with
    | Some _ => (Ok tt, a)
    | None => (Ok tt, <[k := v]> a)
    end.

(** [article_data[k].append(x)]: only a list has [append]. *)
Definition list_append (k : string) (x : item) : M unit :=
  v <- getitem k ;;
  match v with
  | VList l => setitem k (VList (l ++ [x]))
  | _ => lift (Raise AttributeError)
  end.

(** [x in article_data[k]] for a dictionary [x]: membership in a list
    compares by equality; membership in a dictionary hashes [x], and a
    dictionary is unhashable; a string accepts only strings on the left; the
    other values are not containers. *)
Definition contains_dict (k : string) (x : dict) : M bool :=
  v <- getitem k ;;
  match v with
  | VList l => ret (bool_decide (IDict x ∈ l))
  | _ => lift (Raise TypeError)
  end.

Definition dict_truthy (d : dict) : bool := negb (bool_decide (d = ∅)).

Definition body (results : list Tuple) (result : Tuple) : M unit :=
  let predicate := t_p result in
  let object_value := t_o result in
  let sub_predicate := t_subP result in
  let sub_object := t_subO result in
  if decide (predicate = "http://schema.org/@type") then
    setitem "@type" (VStr object_value)
  else if decide (predicate = "http://schema.org/headline") then
    setitem "headline" (VStr object_value)
  else if decide (predicate = "http://schema.org/datePublished") then
    setitem "datePublished" (VStr object_value)
  else if decide (predicate = "http://schema.org/dateModified") then
    setitem "dateModified" (VStr object_value)
  else if decide (predicate = "http://schema.org/articleBody") then
    setitem "articleBody" (VStr object_value)
  else if decide (predicate = "http://schema.org/wordCount") then
    z <- lift (py_int (Some object_value)) ;;
    setitem "wordCount" (VInt z)
  else if decide (predicate = "http://schema.org/inLanguage") then
    setitem "inLanguage" (VStr object_value)
  else if decide (predicate = "http://schema.org/thumbnailUrl") then
    setitem "thumbnailUrl" (VStr object_value)
  else if decide (predicate = "http://schema.org/articleSection") then
    setitem "articleSection" (VStr object_value)
  else if decide (predicate = "http://schema.org/abstract") then
    setitem "abstract" (VStr object_value)
  else if decide (predicate = "http://schema.org/keywords") then
    list_append "keywords" (IStr object_value)
  else if decide (predicate = "http://schema.org/url") then
    setitem "url" (VStr object_value)
  else if decide (predicate = "http://schema.org/author") then
    setdefault "author" (VList []) ;;;
    if decide (sub_predicate = Some "http://schema.org/@type") then
      author_data <-
        (if decide (sub_object = Some "Person") then
           lift (populate_person result results)
         else if decide (sub_object = Some "Organization") then
           lift (populate_organization result results)
         else ret ∅) ;;
      present <- contains_dict "author" author_data ;;
      if negb present then list_append "author" (IDict author_data)
      else ret tt
    else ret tt
  else if decide (predicate = "http://schema.org/publisher") then
    setdefault "publisher" (VList []) ;;;
    if decide (sub_predicate = Some "http://schema.org/@type") then
      publisher_data <-
        (if decide (sub_object = Some "Person") then
           lift (populate_person result results)
         else if decide (sub_object = Some "Organization") then
           lift (populate_organization result results)
         else ret ∅) ;;
      present <- contains_dict "publisher" publisher_data ;;
      if negb present && dict_truthy publisher_data
      then list_append "publisher" (IDict publisher_data)
      else ret tt
    else ret tt
  else if decide (predicate = "http://schema.org/image") then
    setdefault "image" (VList []) ;;;
    image_data <- lift (populate_image_data result results) ;;
    present <- contains_dict "image" image_data ;;
    if negb present then list_append "image" (IDict image_data)
    else ret tt
  else if decide (predicate = "http://schema.org/thumbnail") then
    setdefault "thumbnail" (VDict ∅) ;;;
    thumbnail_data <- lift (populate_image_data result results) ;;
    if dict_truthy thumbnail_data
    then setitem "thumbnail" (VDict thumbnail_data)
    else ret tt
  else if decide (predicate = "http://schema.org/audio") then
    setdefault "audio" (VList []) ;;;
    audio_data <- lift (populate_audio_data (ARows results) (ARow result)) ;;
    if dict_truthy audio_data
    then list_append "audio" (IDict audio_data)
    else ret tt
  else if decide (predicate = "http://schema.org/video") then
    setdefault "video" (VList []) ;;;
    video_data <- lift (populate_video_data (ARows results) (ARow result)) ;;
    if dict_truthy video_data
    then list_append "video" (IDict video_data)
    else ret tt
  else if decide (predicate = "http://schema.org/editor") then
    setdefault "editor" (VList []) ;;;
    editor_data <- lift (populate_person result results) ;;
    present <- contains_dict "editor" editor_data ;;
    if negb present then list_append "editor" (IDict editor_data)
    else ret tt
  else if decide (predicate = "http://schema.org/dateCreated") then
    setitem "dateCreated" (VStr object_value)
  else ret tt.

(** [try: body except Exception as e: logging.error(...)]: the exception is
    swallowed, the dictionary keeps what was written. *)
Definition process (results : list Tuple) (article_data : article)
    (result : Tuple) : article :=
  (body results result article_data).2.

Definition initial_article (url : string) : article :=
  list_to_map
    [ ("@context", VStr "http://schema.org");
      ("@type", VNone);
      ("url", VStr url);
      ("author", VList []);
      ("publisher", VList []);
      ("image", VList []);
      ("keywords", VList []);
      ("datePublished", VNone);
      ("headline", VNone);
      ("articleBody", VNone);
      ("wordCount", VNone);
      ("inLanguage", VNone);
      ("thumbnailUrl", VNone);
      ("thumbnail", VList []);
      ("articleSection", VNone);
      ("abstract", VNone);
      ("audio", VList []);
      ("video", VList []);
      ("editor", VDict ∅);
      ("dateCreated", VNone);
      ("dateModified", VNone) ].

Definition populate_article_data (results : list Tuple) (url : string) : article :=
  fold_left (process results) results (initial_article url).

Definition row (p o : string) : Tuple :=
  {| t_p := p; t_o := o; t_subP := None; t_subO := None |}.

Definition row2 (p o sp so : string) : Tuple :=
  {| t_p := p; t_o := o; t_subP := Some sp; t_subO := Some so |}.

(** ** Library functions used by the recommendation pipeline *)

(** The number of bytes of the white-space character [s] starts with, and
    [0] when it starts with none.  The white space of [str.split()] is
    U+0009-U+000D, U+001C-U+0020, U+0085, U+00A0, U+1680, U+2000-U+200A,
    U+2028, U+2029, U+202F, U+205F and U+3000; in UTF-8 the ones outside
    ASCII start with the byte C2, E1, E2 or E3. *)
Definition space_length (s : string) : nat :=
  match s with
  | String c rest =>
      if is_space c then 1%nat
      else
        let n := nat_of_ascii c in
        match rest with
        | String d rest' =>
            let m := nat_of_ascii d in
            if (n =? 194)%nat && ((m =? 133)%nat || (m =? 160)%nat) then 2%nat
            else
              match rest' with
              | String e _ =>
                  let k := nat_of_ascii e in
                  if (n =? 225)%nat && (m =? 154)%nat && (k =? 128)%nat then 3%nat
                  else if (n =? 226)%nat && (m =? 128)%nat
                          && (((128 <=? k)%nat && (k <=? 138)%nat)
                              || (k =? 168)%nat || (k =? 169)%nat || (k =? 175)%nat)
                  then 3%nat
                  else if (n =? 226)%nat && (m =? 129)%nat && (k =? 159)%nat then 3%nat
                  else if (n =? 227)%nat && (m =? 128)%nat && (k =? 128)%nat then 3%nat
                  else 0%nat
              | EmptyString => 0%nat
              end
        | EmptyString => 0%nat
        end
  | EmptyString => 0%nat
  end.

(** [str.split()] with no argument: the maximal runs of characters that
    are no white space.  [skip] counts the bytes still to pass of a
    white-space character that has been met. *)
Fixpoint split_aux (s : string) (cur : string) (skip : nat) : list string :=
  match s with
  | EmptyString => if decide (cur = "") then [] else [cur]
  | String c rest =>
      match skip with
      | S k => split_aux rest cur k
      | O =>
          match space_length s with
          | O => split_aux rest (cur +:+ String c EmptyString) 0
          | S k =>
              if decide (cur = "") then split_aux rest "" k
              else cur :: split_aux rest "" k
          end
      end
  end.

Definition split (s : string) : list string := split_aux s "" 0.

(** [' '.join(parts)] *)
Fixpoint join (parts : list string) : string :=
  match parts with
  | [] => ""
  | [x] => x
  | x :: rest => x +:+ " " +:+ join rest
  end.

(** [str.replace(c, new)] for a one-character pattern. *)
Fixpoint replace_char (c : ascii) (new : string) (s : string) : string :=
  match s with
  | EmptyString => EmptyString
  | String x rest =>
      if Ascii.eqb x c then new +:+ replace_char c new rest
      else String x (replace_char c new rest)
  end.

(** A stable sort by insertion: [stays y x] tells that an element [y]
    already placed stays in front of the incoming earlier element [x]. *)
Fixpoint insert_by {A} (stays : A -> A -> bool) (x : A) (l : list A) : list A :=
  match l with
  | [] => [x]
  | y :: l' => if stays y x then y :: insert_by stays x l' else x :: l
  end.

Definition sort_by {A} (stays : A -> A -> bool) (l : list A) : list A :=
  foldr (insert_by stays) [] l.

Definition Qlt_bool (x y : Q) : bool := negb (Qle_bool y x).

(** [sorted(l, key=key, reverse=True)]: descending in the key, elements
    with equal keys keep their order. *)
Definition sorted_reverse {A} (key : A -> Q) (l : list A) : list A :=
  sort_by (fun y x => Qlt_bool (key x) (key y)) l.

(** [l[:k]] for an integer [k]: a negative bound counts from the end. *)
Definition slice_to {A} (l : list A) (k : Z) : list A :=
  if 0 <=? k then take (Z.to_nat k) l
  else take (Z.to_nat (Z.of_nat (List.length l) + k)) l.

(** [collections.Counter]: counts in order of first occurrence. *)
Fixpoint counter_add {A} `{EqDecision A} (x : A) (c : list (A * nat)) : list (A * nat) :=
  match c with
  | [] => [(x, 1%nat)]
  | (y, n) :: c' =>
      if decide (x = y) then (y, S n) :: c' else (y, n) :: counter_add x c'
  end.

Definition Counter {A} `{EqDecision A} (l : list A) : list (A * nat) :=
  fold_left (fun c x => counter_add x c) l [].

(** [Counter.most_common(n)]: the [n] highest counts, ties in order of first
    occurrence. *)
Definition most_common {A} (n : nat) (c : list (A * nat)) : list (A * nat) :=
  take n (sort_by (fun y x => (x.2 <? y.2)%nat) c).

(** [numpy.percentile(a, q)] with the default linear method: on the sorted
    data the virtual index is [(n - 1) * q / 100]; the result interpolates
    between the elements below and above it.  numpy computes in binary64;
    for the percentiles 25 and 75 of integers of magnitude below [2^50]
    every intermediate value is a multiple of [1/4] of magnitude below
    [2^51], which binary64 holds exactly, so that the exact value below is
    the value numpy returns.  The properties about the word-count bounds
    are stated for such counts ([small_word_count]). *)
Definition np_percentile (a : list Q) (q : Q) : Q :=
  let sorted := sort_by (fun y x => Qle_bool y x) a in
  let n := Z.of_nat (List.length sorted) in
  let virtual_index := (inject_Z (n - 1) * q / 100)%Q in
  let previous := Qfloor virtual_index in
  let next := Z.min (previous + 1) (n - 1) in
  let gamma := (virtual_index - inject_Z previous)%Q in
  let lo := nth (Z.to_nat previous) sorted 0%Q in
  let hi := nth (Z.to_nat next) sorted 0%Q in
  (lo + (hi - lo) * gamma)%Q.

(** The integers of magnitude below [2^1024 - 2^970] round to a finite
    binary64. *)
Definition float_limit : Z := 2 ^ 1024 - 2 ^ 970.

(** [int(x)] on a float: truncation toward zero. *)
Definition int_of_float (x : Q) : Z :=
  if Qle_bool 0 x then Qfloor x else Qceiling x.

(** ** HTTP *)

(** The outcome of [requests.post]: it raises a [RequestException], or
    answers with a status code and a body of binding rows. *)
Inductive http_result (A : Type) :=
  | ConnectionFailed
  | Response (status : Z) (bindings : A).
Arguments ConnectionFailed {A}.
Arguments Response {A} status bindings.

Inductive match_kind := ExactMatch | PartialMatch.

(** ** The service *)

Section Service.

(** [datetime] values, [datetime.fromisoformat] ([None] for [ValueError])
    and [<] on them, which raises [TypeError] between naive and aware
    values. *)
Variable datetime : Type.
Variable fromisoformat : string -> option datetime.
Variable datetime_lt : datetime -> datetime -> outcome bool.

(** The arguments of [advanced_search]. *)
Record search_args := {
  sa_keywords : aval;
  sa_wordcount : option Z;
  sa_inLanguage : option string;
  sa_author_name : pyval;
  sa_author_nationality : option string;
  sa_publisher : pyval;
  sa_datePublished : option datetime;
  sa_wordcount_min : option Z;
  sa_wordcount_max : option Z;
  sa_datePublished_min : option datetime;
  sa_datePublished_max : option datetime
}.

(** The triple store: the answer to the two-hop query about an article URL,
    and the answer to the search query built from the arguments (the query
    text is a function of the match kind and the arguments).  A search
    binding maps the bound variables to their values. *)
Variable fuseki_article : string -> http_result (list Tuple).
Variable fuseki_search :
  match_kind -> search_args -> http_result (list (gmap string string)).

(** [cosine_similarity(TfidfVectorizer(...).fit_transform(texts))]: the
    square matrix of pairwise similarities, or an exception. *)
Variable tfidf_cosine : list string -> outcome (list (list Q)).

(** *** [_extract_user_preferences] *)

Record Preferences := {
  keywords : aval;
  wordcount_min : option Z;
  wordcount_max : option Z;
  author_name : pyval;
  publisher : pyval;
  datePublished_min : option datetime;
  datePublished_max : option datetime
}.

Definition pyval_truthy (v : option pyval) : bool :=
  match v with
  | None | Some PyNone => false
  | Some (PyStr s) => negb (String.eqb s "")
  | Some (PyInt z) => negb (z =? 0)
  end.

(** [[x['name'] for x in agents if x.get('name')]]: every element must be a
    dictionary. *)
Fixpoint agent_names (agents : list item) : outcome (list pyval) :=
  match agents with
  | [] => Ok []
  | IStr _ :: _ => Raise AttributeError
  | IDict d :: rest =>
      outcome_bind (agent_names rest) (fun names =>
        if pyval_truthy (d !! "name")
        then Ok (default PyNone (d !! "name") :: names)
        else Ok names)
  end.

(** The names an article contributes for [field] (author or publisher). *)
Definition collect_names (article : article) (field : string) : outcome (list pyval) :=
  if truthy (article !! field) then
    match article !! field with
    | Some (VList l) => agent_names l
    | Some (VDict d) =>
        if pyval_truthy (d !! "name")
        then Ok [default PyNone (d !! "name")] else Ok []
    | _ => Ok []
    end
  else Ok [].

Definition collect_keywords (article : article) : list item :=
  if truthy (article !! "keywords") then
    match article !! "keywords" with
    | Some (VList l) => l
    | Some (VStr s) => IStr <$> split s
    | _ => []
    end
  else [].

(** The publish date an article contributes: none when the field is falsy
    or unparsable; [replace] needs a string. *)
Definition collect_date (article : article) : outcome (list datetime) :=
  if truthy (article !! "datePublished") then
    match article !! "datePublished" with
    | Some (VStr s) =>
        match fromisoformat (replace_char "Z" "+00:00" s) with
        | Some d => Ok [d]
        | None => Ok []
        end
    | _ => Raise AttributeError
    end
  else Ok [].

Definition collect_word_count (article : article) : list aval :=
  if truthy (article !! "wordCount")
  then [default VNone (article !! "wordCount")] else [].

Fixpoint concat_outcomes {A} (l : list (outcome (list A))) : outcome (list A) :=
  match l with
  | [] => Ok []
  | r :: rest =>
      outcome_bind r (fun xs =>
        outcome_bind (concat_outcomes rest) (fun ys => Ok (xs ++ ys)%list))
  end.

(** Numbers handed to [numpy], which works on them as floats: an integer
    beyond the range of binary64 cannot be converted
    ([OverflowError: int too large to convert to float]). *)
Fixpoint as_numbers (l : list aval) : outcome (list Q) :=
  match l with
  | [] => Ok []
  | VInt z :: rest =>
      if Z.abs z <? float_limit
      then outcome_bind (as_numbers rest) (fun qs => Ok (inject_Z z :: qs))
      else Raise OverflowError
  | VFloat q :: rest => outcome_bind (as_numbers rest) (fun qs => Ok (q :: qs))
  | _ :: _ => Raise TypeError
  end.

(** [min(l)] and [max(l)] on a non-empty list: the first extremal element. *)
Fixpoint py_min (cur : datetime) (l : list datetime) : outcome datetime :=
  match l with
  | [] => Ok cur
  | x :: rest =>
      outcome_bind (datetime_lt x cur) (fun b => py_min (if b then x else cur) rest)
  end.

Fixpoint py_max (cur : datetime) (l : list datetime) : outcome datetime :=
  match l with
  | [] => Ok cur
  | x :: rest =>
      outcome_bind (datetime_lt cur x) (fun b => py_max (if b then x else cur) rest)
  end.

(** Keys of a [Counter] must be hashable and [join] needs strings. *)
Fixpoint as_strings (l : list item) : outcome (list string) :=
  match l with
  | [] => Ok []
  | IStr s :: rest => outcome_bind (as_strings rest) (fun ss => Ok (s :: ss))
  | IDict _ :: _ => Raise TypeError
  end.

Definition _extract_user_preferences (viewed_articles : list article)
    : outcome Preferences :=
  let word_counts := List.concat (collect_word_count <$> viewed_articles) in
  outcome_bind (concat_outcomes (collect_date <$> viewed_articles)) (fun dates_published =>
  let keywords := List.concat (collect_keywords <$> viewed_articles) in
  outcome_bind (concat_outcomes ((fun a => collect_names a "author") <$> viewed_articles)) (fun authors =>
  outcome_bind (concat_outcomes ((fun a => collect_names a "publisher") <$> viewed_articles)) (fun publishers =>
  outcome_bind
    (match word_counts with
     | [] => Ok (None, None)
     | _ :: _ =>
         outcome_bind (as_numbers word_counts) (fun ns =>
           Ok (Some (int_of_float (np_percentile ns 25)),
               Some (int_of_float (np_percentile ns 75))))
     end) (fun wc =>
  outcome_bind
    (match dates_published with
     | [] => Ok (None, None)
     | d :: rest =>
         outcome_bind (py_min d rest) (fun lo =>
         outcome_bind (py_max d rest) (fun hi => Ok (Some lo, Some hi)))
     end) (fun dates =>
  outcome_bind
    (match keywords with
     | [] => Ok (VList [])
     | _ :: _ =>
         outcome_bind (as_strings keywords) (fun ks =>
           Ok (VStr (join ((most_common 10 (Counter ks)).*1))))
     end) (fun kw =>
  Ok {| keywords := kw;
        wordcount_min := wc.1;
        wordcount_max := wc.2;
        author_name := default PyNone (head ((most_common 1 (Counter authors)).*1));
        publisher := default PyNone (head ((most_common 1 (Counter publishers)).*1));
        datePublished_min := dates.1;
        datePublished_max := dates.2 |})))))).

(** *** Query execution *)

(** [execute_sparql_query]: any [RequestException], an error status
    included, is caught and answered with no rows. *)
Definition execute_sparql_query (url : string) : list Tuple :=
  match fuseki_article url with
  | ConnectionFailed => []
  | Response status bindings =>
      if (400 <=? status) && (status <? 600) then [] else bindings
  end.

(** [get_article_by_url] *)
Definition get_article_by_url (url : string) : article :=
  let results := execute_sparql_query url in
  populate_article_data results url.

(** The dictionary [execute_search_sparql_query] builds from one binding. *)
Definition binding_article (result : gmap string string) : article :=
  fold_left
    (fun article '(var, key) =>
       match result !! var with
       | Some value => <[key := VStr value]> article
       | None => article
       end)
    [ ("headline", "headline"); ("article", "url"); ("abstract", "abstract");
      ("author", "author"); ("datePublished", "datePublished");
      ("thumbnailUrl", "thumbnailUrl"); ("publisher", "publisher") ]
    (∅ : article).

(** [execute_search_sparql_query]: [requests.post] is not guarded. *)
Definition execute_search_sparql_query (kind : match_kind) (args : search_args)
    : outcome (list article) :=
  match fuseki_search kind args with
  | ConnectionFailed => Raise RequestException
  | Response status bindings =>
      if decide (status = 200) then Ok (binding_article <$> bindings) else Ok []
  end.

Definition processed_result (keywords_list : list string) (result : article) : article :=
  list_to_map
    [ ("url", default (VStr "") (result !! "url"));
      ("headline", default (VStr "") (result !! "headline"));
      ("abstract", default (VStr "") (result !! "abstract"));
      ("author", default (VStr "") (result !! "author"));
      ("datePublished", default (VStr "") (result !! "datePublished"));
      ("thumbnailUrl", default (VStr "") (result !! "thumbnailUrl"));
      ("keywords", VList (IStr <$> keywords_list)) ].

(** [search_advanced_exact_match] and [search_advanced_partial_match]
    differ in the connective of the query only. *)
Definition search_advanced_match (kind : match_kind) (args : search_args)
    : outcome (list article) :=
  outcome_bind
    (if truthy (Some (sa_keywords args)) then
       match sa_keywords args with
       | VStr s => Ok (split s)
       | _ => Raise AttributeError
       end
     else Ok []) (fun keywords_list =>
  outcome_bind (execute_search_sparql_query kind args) (fun raw_results =>
  Ok (processed_result keywords_list <$> raw_results))).

Definition search_advanced_exact_match := search_advanced_match ExactMatch.
Definition search_advanced_partial_match := search_advanced_match PartialMatch.

(** The service keeps a trace of the calls of [advanced_search], each of
    which the source logs with its arguments on entry. *)
Definition Svc (A : Type) := St (list search_args) A.

Definition log_call (args : search_args) : Svc unit :=
  fun trace => (Ok tt, (trace ++ [args])%list).

Definition advanced_search (args : search_args) : Svc (list article * string) :=
  log_call args ;;;
  exact_matches <- lift (search_advanced_exact_match args) ;;
  match exact_matches with
  | _ :: _ => ret (exact_matches, "Exact matches")
  | [] =>
      partial_matches <- lift (search_advanced_partial_match args) ;;
      ret (partial_matches, "Partial matches")
  end.

(** *** [_get_candidate_articles] *)

Definition strict_args (preferences : Preferences) : search_args :=
  {| sa_keywords := keywords preferences;
     sa_wordcount := None;
     sa_inLanguage := None;
     sa_author_name := author_name preferences;
     sa_author_nationality := None;
     sa_publisher := publisher preferences;
     sa_datePublished := None;
     sa_wordcount_min := wordcount_min preferences;
     sa_wordcount_max := wordcount_max preferences;
     sa_datePublished_min := datePublished_min preferences;
     sa_datePublished_max := datePublished_max preferences |}.

Definition relax (preferences : Preferences) : Preferences :=
  {| keywords := keywords preferences;
     wordcount_min := wordcount_min preferences;
     wordcount_max := wordcount_max preferences;
     author_name := PyNone;
     publisher := PyNone;
     datePublished_min := datePublished_min preferences;
     datePublished_max := datePublished_max preferences |}.

Definition relaxed_args (relaxed_preferences : Preferences) : search_args :=
  {| sa_keywords := keywords relaxed_preferences;
     sa_wordcount := None;
     sa_inLanguage := None;
     sa_author_name := PyNone;
     sa_author_nationality := None;
     sa_publisher := PyNone;
     sa_datePublished := None;
     sa_wordcount_min := wordcount_min relaxed_preferences;
     sa_wordcount_max := wordcount_max relaxed_preferences;
     sa_datePublished_min := datePublished_min relaxed_preferences;
     sa_datePublished_max := datePublished_max relaxed_preferences |}.

Definition _get_candidate_articles (preferences : Preferences) : Svc (list article) :=
  found <- advanced_search (strict_args preferences) ;;
  match found.1 with
  | _ :: _ => ret found.1
  | [] =>
      let relaxed_preferences := relax preferences in
      found <- advanced_search (relaxed_args relaxed_preferences) ;;
      ret found.1
  end.

(** *** [_calculate_metadata_similarity] *)

(** [any(x.get('name') == name for x in agents)]: evaluation stops at the
    first match; an element that is not a dictionary has no [get]. *)
Fixpoint any_name_equals (agents : list item) (name : pyval) : outcome bool :=
  match agents with
  | [] => Ok false
  | IDict d :: rest =>
      if decide (default PyNone (d !! "name") = name) then Ok true
      else any_name_equals rest name
  | IStr _ :: _ => Raise AttributeError
  end.

Definition agent_match (article : article) (field : string) (name : pyval)
    (score : Q) : outcome Q :=
  if truthy (article !! field) && pyval_truthy (Some name) then
    match article !! field with
    | Some (VList l) =>
        outcome_bind (any_name_equals l name) (fun b =>
          Ok (if b then score + (3 # 10) else score)%Q)
    | Some (VDict d) =>
        if decide (default PyNone (d !! "name") = name)
        then Ok (score + (3 # 10))%Q else Ok score
    | _ => Ok score
    end
  else Ok score.

Definition int_truthy (v : option Z) : bool :=
  match v with
  | Some z => negb (z =? 0)
  | None => false
  end.

Definition wordcount_match (article : article) (preferences : Preferences)
    (score : Q) : outcome Q :=
  if truthy (article !! "wordCount")
     && int_truthy (wordcount_min preferences)
     && int_truthy (wordcount_max preferences) then
    let lo := default 0 (wordcount_min preferences) in
    let hi := default 0 (wordcount_max preferences) in
    match article !! "wordCount" with
    | Some (VInt z) =>
        Ok (if (lo <=? z) && (z <=? hi) then score + (4 # 10) else score)%Q
    | Some (VFloat q) =>
        Ok (if Qle_bool (inject_Z lo) q && Qle_bool q (inject_Z hi)
            then score + (4 # 10) else score)%Q
    | _ => Raise TypeError
    end
  else Ok score.

Definition _calculate_metadata_similarity (article : article)
    (preferences : Preferences) : outcome Q :=
  let score := 0%Q in
  outcome_bind (agent_match article "author" (author_name preferences) score) (fun score =>
  outcome_bind (agent_match article "publisher" (publisher preferences) score) (fun score =>
  wordcount_match article preferences score)).

(** *** [_rank_articles] *)

(** The pieces of text of one article; [join] needs strings. *)
Definition text_parts (article : article) : list aval :=
  (if truthy (article !! "headline")
   then [default VNone (article !! "headline")] else [])
  ++ (if truthy (article !! "abstract")
      then [default VNone (article !! "abstract")] else [])
  ++ (if truthy (article !! "keywords") then
        match article !! "keywords" with
        | Some (VList l) =>
            (fun x => match x with IStr s => VStr s | IDict d => VDict d end) <$> l
        | Some (VStr s) => VStr <$> split s
        | _ => []
        end
      else []).

Fixpoint strings_of (parts : list aval) : outcome (list string) :=
  match parts with
  | [] => Ok []
  | VStr s :: rest => outcome_bind (strings_of rest) (fun ss => Ok (s :: ss))
  | _ :: _ => Raise TypeError
  end.

Definition article_text (article : article) : outcome string :=
  outcome_bind (strings_of (text_parts article)) (fun ss => Ok (join ss)).

Fixpoint all_outcomes {A} (l : list (outcome A)) : outcome (list A) :=
  match l with
  | [] => Ok []
  | r :: rest =>
      outcome_bind r (fun x =>
        outcome_bind (all_outcomes rest) (fun xs => Ok (x :: xs)))
  end.

(** [row.mean()] of a row of the similarity matrix.  The row has one
    entry per viewed article; [get_recommendations] ranks with at least one
    viewed article, and on an empty row, where numpy answers [nan], the
    quotient below is [0]. *)
Definition mean (row : list Q) : Q :=
  (fold_right Qplus 0 row / inject_Z (Z.of_nat (List.length row)))%Q.

(** [article.get('url') in user_history] *)
Definition url_in_history (article : article) (user_history : list string) : bool :=
  match article !! "url" with
  | Some (VStr u) => bool_decide (u ∈ user_history)
  | _ => false
  end.

(** [x.get('final_score', 0)] *)
Definition final_score (x : article) : Q :=
  match x !! "final_score" with
  | Some (VFloat q) => q
  | Some (VInt z) => inject_Z z
  | _ => 0
  end.

(** The scoring loop [for idx, article in enumerate(candidate_articles)]. *)
Fixpoint score_articles (similarity_scores : list Q) (preferences : Preferences)
    (user_history : list string) (idx : nat) (candidate_articles : list article)
    : outcome (list article) :=
  match candidate_articles with
  | [] => Ok []
  | article :: rest =>
      if negb (url_in_history article user_history) then
        outcome_bind
          (match similarity_scores !! idx with
           | Some s => Ok s
           | None => Raise IndexError
           end) (fun similarity_score =>
        let article_copy := <["similarity_score" := VFloat similarity_score]> article in
        outcome_bind (_calculate_metadata_similarity article preferences) (fun metadata_score =>
        let article_copy :=
          <["final_score" :=
              VFloat ((7 # 10) * similarity_score + (3 # 10) * metadata_score)%Q]>
            article_copy in
        outcome_bind
          (score_articles similarity_scores preferences user_history (S idx) rest)
          (fun scored => Ok (article_copy :: scored))))
      else score_articles similarity_scores preferences user_history (S idx) rest
  end.

Definition _rank_articles (viewed_articles candidate_articles : list article)
    (preferences : Preferences) (user_history : list string)
    (max_recommendations : Z) : outcome (list article) :=
  match candidate_articles with
  | [] => Ok []
  | _ :: _ =>
      outcome_bind (all_outcomes (article_text <$> viewed_articles)) (fun viewed_texts =>
      outcome_bind (all_outcomes (article_text <$> candidate_articles)) (fun candidate_texts =>
      let attempt :=
        outcome_bind (tfidf_cosine (viewed_texts ++ candidate_texts)%list) (fun similarity_matrix =>
        let num_viewed := List.length viewed_texts in
        let similarity_scores :=
          (fun row => mean (take num_viewed row)) <$> drop num_viewed similarity_matrix in
        outcome_bind
          (score_articles similarity_scores preferences user_history 0 candidate_articles)
          (fun scored_articles =>
        let ranked_articles := sorted_reverse final_score scored_articles in
        Ok (slice_to ranked_articles max_recommendations))) in
      match attempt with
      | Ok ranked => Ok ranked
      | Raise _ => Ok []
      end))
  end.

(** *** [get_recommendations] *)

Definition get_recommendations (user_history : list string)
    (max_recommendations : Z) : Svc (list article) :=
  let viewed_articles :=
    filter (fun results : article => results ≠ ∅)
      (get_article_by_url <$> user_history) in
  match viewed_articles with
  | [] => ret []
  | _ :: _ =>
      preferences <- lift (_extract_user_preferences viewed_articles) ;;
      recommended_articles <- _get_candidate_articles preferences ;;
      lift (_rank_articles viewed_articles recommended_articles preferences
              user_history max_recommendations)
  end.

End Service.

(** ** The effect of one row, as an action

    On the dictionaries the loop can reach, one iteration has one of four
    effects on [article_data]. *)

Inductive action :=
  | ANop
  | ASet (k : string) (v : aval)
  | AAppend (k : string) (x : item)
  | AAddNew (k : string) (x : item).

Definition apply_action (act : action) (a : article) : article :=
  match act with
  | ANop => a
  | ASet k v => <[k := v]> a
  | AAppend k x =>
      match a !! k with
      | Some (VList l) => <[k := VList (l ++ [x])]> a
      | _ => a
      end
  | AAddNew k x =>
      match a !! k with
      | Some (VList l) =>
          if bool_decide (x ∈ l) then a else <[k := VList (l ++ [x])]> a
      | _ => a
      end
  end.

Definition agent_action (key : string) (guarded : bool) (results : list Tuple)
    (result : Tuple) : action :=
  if decide (t_subP result = Some "http://schema.org/@type") then
    match
      (if decide (t_subO result = Some "Person") then populate_person result results
       else if decide (t_subO result = Some "Organization")
            then populate_organization result results
            else Ok ∅)
    with
    | Ok d => if guarded && negb (dict_truthy d) then ANop else AAddNew key (IDict d)
    | Raise _ => ANop
    end
  else ANop.

Definition action_of (results : list Tuple) (result : Tuple) : action :=
  let predicate := t_p result in
  let object_value := t_o result in
  if decide (predicate = "http://schema.org/@type") then ASet "@type" (VStr object_value)
  else if decide (predicate = "http://schema.org/headline") then ASet "headline" (VStr object_value)
  else if decide (predicate = "http://schema.org/datePublished") then ASet "datePublished" (VStr object_value)
  else if decide (predicate = "http://schema.org/dateModified") then ASet "dateModified" (VStr object_value)
  else if decide (predicate = "http://schema.org/articleBody") then ASet "articleBody" (VStr object_value)
  else if decide (predicate = "http://schema.org/wordCount") then
    match py_int (Some object_value) with
    | Ok z => ASet "wordCount" (VInt z)
    | Raise _ => ANop
    end
  else if decide (predicate = "http://schema.org/inLanguage") then ASet "inLanguage" (VStr object_value)
  else if decide (predicate = "http://schema.org/thumbnailUrl") then ASet "thumbnailUrl" (VStr object_value)
  else if decide (predicate = "http://schema.org/articleSection") then ASet "articleSection" (VStr object_value)
  else if decide (predicate = "http://schema.org/abstract") then ASet "abstract" (VStr object_value)
  else if decide (predicate = "http://schema.org/keywords") then AAppend "keywords" (IStr object_value)
  else if decide (predicate = "http://schema.org/url") then ASet "url" (VStr object_value)
  else if decide (predicate = "http://schema.org/author") then agent_action "author" false results result
  else if decide (predicate = "http://schema.org/publisher") then agent_action "publisher" true results result
  else if decide (predicate = "http://schema.org/image") then
    match populate_image_data result results with
    | Ok d => AAddNew "image" (IDict d)
    | Raise _ => ANop
    end
  else if decide (predicate = "http://schema.org/thumbnail") then
    match populate_image_data result results with
    | Ok d => if dict_truthy d then ASet "thumbnail" (VDict d) else ANop
    | Raise _ => ANop
    end
  else if decide (predicate = "http://schema.org/dateCreated") then ASet "dateCreated" (VStr object_value)
  else ANop.

(** The shape every dictionary of the loop has: the list-valued keys hold
    lists, [editor] holds a dictionary, [thumbnail] is present. *)
Record shaped (a : article) : Prop := {
  shaped_keywords : ∃ l, a !! "keywords" = Some (VList l);
  shaped_author : ∃ l, a !! "author" = Some (VList l);
  shaped_publisher : ∃ l, a !! "publisher" = Some (VList l);
  shaped_image : ∃ l, a !! "image" = Some (VList l);
  shaped_audio : ∃ l, a !! "audio" = Some (VList l);
  shaped_video : ∃ l, a !! "video" = Some (VList l);
  shaped_editor : ∃ d, a !! "editor" = Some (VDict d);
  shaped_thumbnail : ∃ v, a !! "thumbnail" = Some v
}.

Definition scalar_keys : list string :=
  ["@type"; "headline"; "datePublished"; "dateModified"; "articleBody";
   "wordCount"; "inLanguage"; "thumbnailUrl"; "articleSection"; "abstract";
   "url"; "thumbnail"; "dateCreated"].

Definition wf_action (act : action) : Prop :=
  match act with
  | ANop => True
  | ASet k _ => k ∈ scalar_keys
  | AAppend k _ => k = "keywords"
  | AAddNew k _ => k ∈ ["author"; "publisher"; "image"]
  end.


(** The dictionaries the loop of [populate_article_data results url] goes
    through. *)
Definition reachable (results : list Tuple) (url : string) (a : article) : Prop :=
  ∃ processed, a = fold_left (process results) processed (initial_article url).

(** The value of one key after an action, from its value before. *)
Definition key_effect (act : action) (k0 : string) (v : option aval) : option aval :=
  match act with
  | ANop => v
  | ASet k w => if decide (k = k0) then Some w else v
  | AAppend k x =>
      if decide (k = k0) then
        match v with
        | Some (VList l) => Some (VList (l ++ [x]))
        | _ => v
        end
      else v
  | AAddNew k x =>
      if decide (k = k0) then
        match v with
        | Some (VList l) =>
            if bool_decide (x ∈ l) then v else Some (VList (l ++ [x]))
        | _ => v
        end
      else v
  end.

(** The predicates the loop treats as single-valued: the last row wins. *)
Definition single_valued_predicates : list string :=
  (fun k => "http://schema.org/" +:+ k) <$> scalar_keys.

(** A row list is functional when a single-valued predicate comes with one
    object only and an (object, sub-predicate) pair with one sub-object
    only. *)
Definition functional (results : list Tuple) : Prop :=
  (∀ t1 t2, t1 ∈ results -> t2 ∈ results ->
     t_p t1 = t_p t2 -> t_p t1 ∈ single_valued_predicates -> t_o t1 = t_o t2)
  ∧ (∀ t1 t2, t1 ∈ results -> t2 ∈ results ->
     t_o t1 = t_o t2 -> t_subP t1 = t_subP t2 -> t_subO t1 = t_subO t2).

(** The keys whose lists follow the order of the input. *)
Definition list_keys : list string := ["keywords"; "author"; "publisher"; "image"].

(** Equal values, or, under a list key, lists that are permutations of one
    another. *)
Definition same_value (k : string) (v1 v2 : option aval) : Prop :=
  v1 = v2
  ∨ (k ∈ list_keys
     ∧ ∃ l1 l2, v1 = Some (VList l1) ∧ v2 = Some (VList l2) ∧ l1 ≡ₚ l2).

(** Equal outcomes up to the class of the exception. *)
Definition same_outcome {A} (r1 r2 : outcome A) : Prop :=
  match r1, r2 with
  | Ok a1, Ok a2 => a1 = a2
  | Raise _, Raise _ => True
  | _, _ => False
  end.

Arguments search_args : clear implicits.
Arguments Preferences : clear implicits.
Arguments keywords {datetime} _.
Arguments wordcount_min {datetime} _.
Arguments wordcount_max {datetime} _.
Arguments author_name {datetime} _.
Arguments publisher {datetime} _.
Arguments datePublished_min {datetime} _.
Arguments datePublished_max {datetime} _.
Arguments strict_args {datetime} _.
Arguments relax {datetime} _.
Arguments relaxed_args {datetime} _.
Arguments _extract_user_preferences {datetime} _ _ _.
Arguments advanced_search {datetime} _ _ _.
Arguments search_advanced_match {datetime} _ _ _.
Arguments _get_candidate_articles {datetime} _ _ _.
Arguments _calculate_metadata_similarity {datetime} _ _.
Arguments score_articles {datetime} _ _ _ _ _.
Arguments _rank_articles {datetime} _ _ _ _ _ _.
Arguments get_recommendations {datetime} _ _ _ _ _ _ _ _.

(** ** Notions used to state the properties of the materializer *)

(** The collections the loop appends an entity to after the test
    [if entity not in article_data[key]]. *)
Definition entity_keys : list string := ["author"; "publisher"; "image"].

(** The entity the row [result] builds for the collection [k] and offers
    to that test, if it builds one. *)
Definition produced (k : string) (results : list Tuple) (result : Tuple)
    : option item :=
  match action_of results result with
  | AAddNew k' x => if decide (k' = k) then Some x else None
  | _ => None
  end.

(** [if x not in acc: acc.append(x)] *)
Definition add_new {A} `{EqDecision A} (acc : list A) (x : A) : list A :=
  if bool_decide (x ∈ acc) then acc else (acc ++ [x])%list.

(** The distinct elements of [l], each at the place of its first
    occurrence. *)
Definition first_seen {A} `{EqDecision A} (l : list A) : list A :=
  fold_left add_new l [].

(** ** Notions used to state the properties of the pipeline *)

(** What the [try] block of [_rank_articles] computes before it sorts: the
    similarity of every candidate to the viewed texts, and the scored
    copies of the candidates outside the history. *)
Definition scored_articles {datetime}
    (tfidf_cosine : list string -> outcome (list (list Q)))
    (viewed_texts candidate_texts : list string) (candidate_articles : list article)
    (preferences : Preferences datetime) (user_history : list string)
    : outcome (list article) :=
  outcome_bind (tfidf_cosine (viewed_texts ++ candidate_texts)%list)
    (fun similarity_matrix =>
       let num_viewed := List.length viewed_texts in
       let similarity_scores :=
         (fun row => mean (take num_viewed row)) <$> drop num_viewed similarity_matrix in
       score_articles similarity_scores preferences user_history 0 candidate_articles).


(** [r] is candidate [c] with its two scores added. *)
Definition scored_copy (c r : article) : Prop :=
  ∃ s f, r = <["final_score" := VFloat f]> (<["similarity_score" := VFloat s]> c).

(** The candidates the scoring loop keeps, in candidate order. *)
Definition unseen (user_history : list string) (candidates : list article) : list article :=
  List.filter (fun c => negb (url_in_history c user_history)) candidates.

(** The elements of [l] whose final score is [q]. *)
Definition with_score (q : Q) (l : list article) : list article :=
  List.filter (fun x => Qeq_bool (final_score x) q) l.

(** The linear-interpolated percentile as the specification words it: on
    the sorted data [x_0 <= ... <= x_(n-1)] the rank is
    [h = (n - 1) * p / 100] and the value lies between [x_floor(h)] and
    [x_ceil(h)], in proportion to [h - floor(h)]. *)
Definition linear_percentile (xs : list Z) (p : Q) : Q :=
  let sorted := sort_by (fun y x => y <=? x) xs in
  let h := (inject_Z (Z.of_nat (List.length xs) - 1) * p / 100)%Q in
  let below := nth (Z.to_nat (Qfloor h)) sorted 0 in
  let above := nth (Z.to_nat (Qceiling h)) sorted 0 in
  (inject_Z below + (h - inject_Z (Qfloor h)) * (inject_Z above - inject_Z below))%Q.

(** The word counts the history records expose, and the non-zero ones. *)
Definition exposed_word_counts (viewed_articles : list article) : list Z :=
  omap (fun a => match a !! "wordCount" with
                 | Some (VInt z) => Some z
                 | _ => None
                 end) viewed_articles.

Definition nonzero_word_counts (viewed_articles : list article) : list Z :=
  List.filter (fun z => negb (z =? 0)) (exposed_word_counts viewed_articles).

(** A history record exposes its word count as an integer or not at all. *)
Definition integer_word_count (a : article) : Prop :=
  match a !! "wordCount" with
  | None | Some VNone | Some (VInt _) => True
  | _ => False
  end.

(** A word count of magnitude below [2^50], where the interpolation of
    numpy is exact. *)
Definition small_word_count (a : article) : Prop :=
  ∀ z, a !! "wordCount" = Some (VInt z) -> Z.abs z < 2 ^ 50.

(** ** A test double of the triple store and of the vectorizer *)

Definition demo_fromisoformat (s : string) : option Z := None.

Definition demo_datetime_lt (a b : Z) : outcome bool := Ok (a <? b).

Definition demo_rows : list Tuple :=
  [ row "http://schema.org/headline" "AI breakthrough";
    row "http://schema.org/keywords" "ai";
    row "http://schema.org/keywords" "research";
    row "http://schema.org/wordCount" "500";
    row2 "http://schema.org/author" "http://example.org/alice"
      "http://schema.org/@type" "Person";
    row2 "http://schema.org/author" "http://example.org/alice"
      "http://schema.org/name" "Alice" ].

Definition demo_article_store (url : string) : http_result (list Tuple) :=
  Response 200 demo_rows.

Definition demo_bindings : list (gmap string string) :=
  [ {[ "article" := "http://example.org/n2"; "headline" := "AI research";
       "author" := "Alice" ]};
    {[ "article" := "http://example.org/n3"; "headline" := "Cooking pasta";
       "author" := "Bob" ]} ].

Definition search_up (kind : match_kind) (args : search_args Z)
    : http_result (list (gmap string string)) :=
  Response 200 demo_bindings.

Definition search_empty (kind : match_kind) (args : search_args Z)
    : http_result (list (gmap string string)) :=
  Response 200 [].

Definition search_down (kind : match_kind) (args : search_args Z)
    : http_result (list (gmap string string)) :=
  ConnectionFailed.

(** A symmetric matrix with ones on the diagonal, standing for the
    similarity matrix of [n] texts. *)
Definition demo_tfidf (texts : list string) : outcome (list (list Q)) :=
  let n := List.length texts in
  Ok ((fun i => (fun j => 1 # Pos.of_nat (S (Nat.max i j - Nat.min i j))) <$> seq 0 n)
        <$> seq 0 n).

Definition demo_history : list string := ["http://example.org/n1"].

Definition demo_viewed : list article :=
  [get_article_by_url demo_article_store "http://example.org/n1"].

Definition demo_candidates : list article :=
  processed_result ["ai"; "research"] <$> (binding_article <$> demo_bindings).

Definition demo_preferences : Preferences Z :=
  {| keywords := VStr "ai research";
     wordcount_min := Some 500;
     wordcount_max := Some 500;
     author_name := PyStr "Alice";
     publisher := PyNone;
     datePublished_min := None;
     datePublished_max := None |}.

Definition word_count_article (z : Z) : article :=
  <["wordCount" := VInt z]> (initial_article "http://example.org/n1").

(** Non-increasing order of the keys. *)
Definition descending {A} (key : A -> Q) (x y : A) : Prop := (key y <= key x)%Q.

Definition counts_small : list Z := [1; 2].
Definition counts_with_zero : list Z := [0; 100; 200; 300; 400].
Definition counts_example : list Z := [100; 200; 300; 400].

(** NO-BREAK SPACE (U+00A0) in UTF-8. *)
Definition nbsp : string := String (ascii_of_nat 194) (String (ascii_of_nat 160) "").

(** INFORMATION SEPARATOR FOUR (U+001C). *)
Definition file_separator : string := String (ascii_of_nat 28) "".


(** The author entity the demo rows describe. *)
Definition demo_author : dict :=
  <["name" := PyStr "Alice"]> (<["@type" := PyStr "Person"]> person_data).

Definition demo_url : string := "http://example.org/n1".

(** A history that has already seen the second candidate. *)
Definition demo_history_seen : list string :=
  ["http://example.org/n1"; "http://example.org/n3"].

Definition returned (r : outcome (list article)) : list article :=
  match r with
  | Ok l => l
  | Raise _ => []
  end.

Definition demo_ranked : list article :=
  returned (_rank_articles demo_tfidf demo_viewed demo_candidates demo_preferences
              demo_history 10).

Definition demo_ranked_negative : list article :=
  returned (_rank_articles demo_tfidf demo_viewed demo_candidates demo_preferences
              demo_history (-1)).

Definition demo_ranked_seen : list article :=
  returned (_rank_articles demo_tfidf demo_viewed demo_candidates demo_preferences
              demo_history_seen 10).

Definition demo_extracted : Preferences Z :=
  match _extract_user_preferences demo_fromisoformat demo_datetime_lt
          (word_count_article <$> counts_example) with
  | Ok p => p
  | Raise _ => demo_preferences
  end.

(** The preferences extracted from the demo history. *)
Definition demo_extracted_history : Preferences Z :=
  match _extract_user_preferences demo_fromisoformat demo_datetime_lt
          (filter (fun results : article => results ≠ ∅)
             (get_article_by_url demo_article_store <$> demo_history)) with
  | Ok p => p
  | Raise _ => demo_preferences
  end.

(** The keys of [article_data]. *)
Definition article_keys : list string :=
  ["@context"; "@type"; "url"; "author"; "publisher"; "image"; "keywords";
   "datePublished"; "headline"; "articleBody"; "wordCount"; "inLanguage";
   "thumbnailUrl"; "thumbnail"; "articleSection"; "abstract"; "audio"; "video";
   "editor"; "dateCreated"; "dateModified"].

(** The keys assigned the object of the row as it is. *)
Definition string_fields : list string :=
  ["@type"; "headline"; "datePublished"; "dateModified"; "articleBody";
   "inLanguage"; "thumbnailUrl"; "articleSection"; "abstract"; "url";
   "dateCreated"].

(** The predicates the [elif] chain of the loop tests. *)
Definition known_predicates : list string :=
  (fun k => "http://schema.org/" +:+ k)
    <$> ["@type"; "headline"; "datePublished"; "dateModified"; "articleBody";
         "wordCount"; "inLanguage"; "thumbnailUrl"; "articleSection"; "abstract";
         "keywords"; "url"; "author"; "publisher"; "image"; "thumbnail"; "audio";
         "video"; "editor"; "dateCreated"].

(** The [wordCount] rows carry ASCII literals, which [int] reads as
    [parse_int] does. *)
Definition ascii_word_counts (results : list Tuple) : Prop :=
  Forall (fun t => t_p t = "http://schema.org/wordCount" -> ascii_literal (t_o t))
    results.

(** The [wordCount] rows carry ASCII literals of integers of magnitude below
    [2^50]. *)
Definition small_word_count_rows (results : list Tuple) : Prop :=
  Forall (fun t =>
            t_p t = "http://schema.org/wordCount" ->
            ascii_literal (t_o t)
            ∧ ∀ z, parse_int (t_o t) = Some z -> Z.abs z < 2 ^ 50) results.

(** The integer a [wordCount] row carries, when its object reads as one. *)
Definition word_count_of (t : Tuple) : option Z :=
  if decide (t_p t = "http://schema.org/wordCount") then parse_int (t_o t) else None.

(** [search_certain_articles] *)
Definition search_certain_articles
    (fuseki_article : string -> http_result (list Tuple)) (links : list string)
    : list article :=
  filter (fun article : article => article ≠ ∅)
    (get_article_by_url fuseki_article <$> links).

(** The rows about the object of [result] give every height and width as an
    integer literal. *)
Definition integer_dimensions (result : Tuple) (results : list Tuple) : Prop :=
  Forall (fun r =>
            t_o r = t_o result ->
            t_subP r = Some "http://schema.org/height"
            ∨ t_subP r = Some "http://schema.org/width" ->
            is_Some (t_subO r ≫= parse_int)) results.

(** The rows about the object of [result] give every height and width as
    an ASCII literal, which [int] reads as [parse_int] does. *)
Definition ascii_dimensions (result : Tuple) (results : list Tuple) : Prop :=
  Forall (fun r =>
            t_o r = t_o result ->
            t_subP r = Some "http://schema.org/height"
            ∨ t_subP r = Some "http://schema.org/width" ->
            ∀ s, t_subO r = Some s -> ascii_literal s) results.

Definition blank_row : Tuple := row "http://schema.org/comment" "nothing".

(** Rows that give an image a height that is no integer. *)
Definition tall_image_row : Tuple :=
  row2 "http://schema.org/image" "http://example.org/i1"
    "http://schema.org/height" "tall".

Definition tall_image_rows : list Tuple := [tall_image_row].

(** ** The keyword search

    The query text of [search_exact_match] and [search_partial_match] is a
    function of the list of keywords, and that of [search_all_articles] is
    fixed: the triple store is the answer to each. *)

(** What [execute_search_sparql_query] makes of the answer to its request. *)
Definition search_answer (response : http_result (list (gmap string string)))
    : outcome (list article) :=
  match response with
  | ConnectionFailed => Raise RequestException
  | Response status bindings =>
      if decide (status = 200) then Ok (binding_article <$> bindings) else Ok []
  end.

(** [search_exact_match]: the raw results are processed. *)
Definition search_exact_match
    (fuseki_keywords : match_kind -> list string -> http_result (list (gmap string string)))
    (keywords_list : list string) : outcome (list article) :=
  outcome_bind (search_answer (fuseki_keywords ExactMatch keywords_list))
    (fun raw_results => Ok (processed_result keywords_list <$> raw_results)).

(** [search_partial_match]: the raw results are returned as they are. *)
Definition search_partial_match
    (fuseki_keywords : match_kind -> list string -> http_result (list (gmap string string)))
    (keywords_list : list string) : outcome (list article) :=
  search_answer (fuseki_keywords PartialMatch keywords_list).

(** [search_articles_by_keywords] *)
Definition search_articles_by_keywords
    (fuseki_keywords : match_kind -> list string -> http_result (list (gmap string string)))
    (keywords : string) : outcome (list article * string) :=
  let keywords_list := split keywords in
  outcome_bind (search_exact_match fuseki_keywords keywords_list) (fun exact_articles =>
  match exact_articles with
  | _ :: _ => Ok (exact_articles, "Exact matches")
  | [] =>
      outcome_bind (search_partial_match fuseki_keywords keywords_list)
        (fun partial_articles => Ok (partial_articles, "Partial matches"))
  end).

(** [search_all_articles] and [get_all_articles]. *)
Definition search_all_articles (fuseki_all : http_result (list (gmap string string)))
    : outcome (list article) :=
  search_answer fuseki_all.

Definition get_all_articles (fuseki_all : http_result (list (gmap string string)))
    : outcome (list article) :=
  search_all_articles fuseki_all.

(** The keys of a processed search result. *)
Definition processed_keys : list string :=
  ["url"; "headline"; "abstract"; "author"; "datePublished"; "thumbnailUrl";
   "keywords"].

(** The keys a raw search result can have. *)
Definition raw_keys : list string :=
  ["headline"; "url"; "abstract"; "author"; "datePublished"; "thumbnailUrl";
   "publisher"].

(** A keyword index that knows one article under the keyword [ai] only when
    all keywords are asked for together. *)
Definition demo_keyword_store (kind : match_kind) (keywords_list : list string)
    : http_result (list (gmap string string)) :=
  match kind with
  | ExactMatch => Response 200 []
  | PartialMatch => Response 200 demo_bindings
  end.

Definition failing_store (url : string) : http_result (list Tuple) :=
  Response 503 demo_rows.

(** The keywords [search_advanced_exact_match] splits its argument into. *)
Definition query_keywords (keywords : aval) : list string :=
  match keywords with
  | VStr s => split s
  | _ => []
  end.

(** The shape of a processed search result for the keywords of the query. *)
Definition processed_shape (keywords_list : list string) (c : article) : Prop :=
  (∀ k, is_Some (c !! k) ↔ k ∈ processed_keys)
  ∧ c !! "keywords" = Some (VList (IStr <$> keywords_list))
  ∧ ∀ k, k ∈ processed_keys -> k ≠ "keywords" -> ∃ s, c !! k = Some (VStr s).

Definition demo_strict_found : list article :=
  match (advanced_search search_up (strict_args demo_preferences) []).1 with
  | Ok found => found.1
  | Raise _ => []
  end.

(** An element of an agent list that is a dictionary. *)
Definition is_entity (x : item) : Prop :=
  match x with
  | IDict _ => True
  | IStr _ => False
  end.

(** The fields [_rank_articles] joins into a text are strings: [headline]
    and [abstract] hold a string or [None], [keywords] a list of strings. *)
Definition text_typed (a : article) : Prop :=
  (a !! "headline" = Some VNone ∨ ∃ s, a !! "headline" = Some (VStr s))
  ∧ (a !! "abstract" = Some VNone ∨ ∃ s, a !! "abstract" = Some (VStr s))
  ∧ ∃ ks, a !! "keywords" = Some (VList (IStr <$> ks)).

Definition demo_record : article := get_article_by_url demo_article_store demo_url.

Definition demo_metadata_score : Q :=
  match _calculate_metadata_similarity demo_record demo_preferences with
  | Ok s => s
  | Raise _ => 0%Q
  end.

(** The number of occurrences of [x] in [l]. *)
Definition occurrences {A} `{EqDecision A} (x : A) (l : list A) : nat :=
  List.length (filter (fun y => y = x) l).

(** The count a [Counter] holds for [y]. *)
Fixpoint count_in {A} `{EqDecision A} (c : list (A * nat)) (y : A) : nat :=
  match c with
  | [] => 0%nat
  | (z, n) :: c' => if decide (y = z) then n else count_in c' y
  end.

(** The history of the demo, as [get_recommendations] materializes it. *)
Definition demo_viewed_history : list article :=
  filter (fun results : article => results ≠ ∅)
    (get_article_by_url demo_article_store <$> demo_history).

(** The types [_extract_user_preferences] relies on in a history record:
    an integer of magnitude below [2^50] or no word count, a string or no publish date, strings as
    keywords and entities as authors and publishers. *)
Definition history_typed (a : article) : Prop :=
  (a !! "wordCount" = Some VNone
   ∨ ∃ z, a !! "wordCount" = Some (VInt z) ∧ Z.abs z < 2 ^ 50)
  ∧ (a !! "datePublished" = Some VNone ∨ ∃ s, a !! "datePublished" = Some (VStr s))
  ∧ (∃ ks, a !! "keywords" = Some (VList (IStr <$> ks)))
  ∧ (∃ l, a !! "author" = Some (VList l) ∧ Forall is_entity l)
  ∧ (∃ l, a !! "publisher" = Some (VList l) ∧ Forall is_entity l).

(** * Properties of the materializer *)

Ltac split_elem H :=
  repeat (apply elem_of_cons in H as [H | H]; [subst | ]);
  try (apply elem_of_nil in H; destruct H).

Ltac absurd_elem H :=
  exfalso; apply (bool_decide_pack _) in H; vm_compute in H; exact H.

Lemma process_action results a result :
  shaped a -> process results a result = apply_action (action_of results result) a.
Proof.
  intros [[lk Hk] [la Ha] [lp Hp] [li Hi] [lau Hau] [lv Hv] [de He] [vt Ht]].
  unfold process, body, action_of.
  repeat case_decide; try reflexivity.
  all: unfold agent_action, populate_audio_data, populate_video_data, populate_media,
         bind, setdefault, setitem, list_append, contains_dict,
         getitem, lift, ret, bind, apply_action;
       rewrite ?Hk, ?Ha, ?Hp, ?Hi, ?Hau, ?Hv, ?He, ?Ht; cbn [fst snd].
  all: repeat first
         [ progress rewrite ?Hk, ?Ha, ?Hp, ?Hi, ?Hau, ?Hv, ?He, ?Ht
         | progress cbn [fst snd negb andb]
         | case_decide; try congruence
         | match goal with
           | |- context [populate_person ?r ?rs] => destruct (populate_person r rs)
           | |- context [populate_organization ?r ?rs] => destruct (populate_organization r rs)
           | |- context [populate_image_data ?r ?rs] => destruct (populate_image_data r rs)
           | |- context [py_int ?v] => destruct (py_int v)
           | |- context [bool_decide (?x ∈ ?l)] =>
               destruct (decide (x ∈ l));
               [ rewrite !(bool_decide_eq_true_2 (x ∈ l)) by assumption
               | rewrite !(bool_decide_eq_false_2 (x ∈ l)) by assumption ]
           | |- context [dict_truthy ?d] => destruct (dict_truthy d)
           end ].
  all: try reflexivity.
  all: try congruence.
Qed.

Lemma shaped_initial url : shaped (initial_article url).
Proof. split; eexists; reflexivity. Qed.

Lemma wf_action_of results result : wf_action (action_of results result).
Proof.
  unfold action_of, agent_action.
  repeat first
    [ case_decide
    | match goal with
      | |- context [populate_person ?r ?rs] => destruct (populate_person r rs)
      | |- context [populate_organization ?r ?rs] => destruct (populate_organization r rs)
      | |- context [populate_image_data ?r ?rs] => destruct (populate_image_data r rs)
      | |- context [py_int ?v] => destruct (py_int v)
      | |- context [dict_truthy ?d] => destruct (dict_truthy d)
      end ];
    cbn [andb negb wf_action]; try exact I; try reflexivity;
    match goal with
    | |- ?x ∈ ?l => apply (bool_decide_unpack (x ∈ l)); vm_compute; exact I
    end.
Qed.

Lemma shaped_apply act a : wf_action act -> shaped a -> shaped (apply_action act a).
Proof.
  intros Hwf [[lk Hk] [la Ha] [lp Hp] [li Hi] [lau Hau] [lv Hv] [de He] [vt Ht]].
  destruct act as [ | k v | k x | k x]; cbn [apply_action wf_action] in *.
  - split; eauto.
  - unfold scalar_keys in Hwf. split_elem Hwf;
      (split; eexists; rewrite ?lookup_insert_eq, ?lookup_insert_ne by done; eauto).
  - subst k. rewrite Hk.
    split; eexists; rewrite ?lookup_insert_eq, ?lookup_insert_ne by done; eauto.
  - split_elem Hwf; rewrite ?Ha, ?Hp, ?Hi; case_bool_decide;
      (split; eexists; rewrite ?lookup_insert_eq, ?lookup_insert_ne by done; eauto).
Qed.

Lemma shaped_process results a result : shaped a -> shaped (process results a result).
Proof.
  intros Hs. rewrite process_action by done.
  apply shaped_apply; [apply wf_action_of | done].
Qed.

Lemma shaped_fold results l a :
  shaped a -> shaped (fold_left (process results) l a).
Proof.
  revert a. induction l as [ | t l IH]; intros a Hs; [done | ].
  cbn. apply IH, shaped_process, Hs.
Qed.

Lemma shaped_reachable results url a : reachable results url a -> shaped a.
Proof. intros [pre ->]. apply shaped_fold, shaped_initial. Qed.

Lemma fold_process_actions results l a :
  shaped a ->
  fold_left (process results) l a
  = fold_left (fun a t => apply_action (action_of results t) a) l a.
Proof.
  revert a. induction l as [ | t l IH]; intros a Hs; [done | ].
  cbn. rewrite <- process_action by done. apply IH, shaped_process, Hs.
Qed.




(** [editor], [audio] and [video] never leave their initial value. *)
Lemma apply_action_frozen act a k :
  wf_action act -> k ∈ ["editor"; "audio"; "video"] ->
  apply_action act a !! k = a !! k.
Proof.
  intros Hwf Hk.
  destruct act as [ | k' v | k' x | k' x]; cbn [apply_action wf_action] in *.
  - done.
  - rewrite lookup_insert_ne; [done | ]. intros ->. split_elem Hk; absurd_elem Hwf.
  - subst k'. destruct (a !! "keywords") as [[ | | | | l' | ] | ]; try done.
    rewrite lookup_insert_ne; [done | ]. intros <-. absurd_elem Hk.
  - destruct (a !! k') as [[ | | | | l' | ] | ]; try done.
    case_bool_decide; [done | ].
    rewrite lookup_insert_ne; [done | ]. intros ->. split_elem Hk; absurd_elem Hwf.
Qed.

Lemma populate_frozen results url k :
  k ∈ ["editor"; "audio"; "video"] ->
  populate_article_data results url !! k = initial_article url !! k.
Proof.
  intros Hk. unfold populate_article_data.
  generalize results at 2. intros l.
  induction l as [ | t l IH] using rev_ind; [done | ].
  rewrite fold_left_app. cbn [fold_left].
  rewrite process_action by apply shaped_fold, shaped_initial.
  rewrite apply_action_frozen; [done | apply wf_action_of | done].
Qed.

(** ** Folds over permuted lists *)

Section FoldPermutation.
Context {S X : Type} (R : relation S) (f : S -> X -> S).
Hypothesis R_sym : ∀ s s', R s s' -> R s' s.
Hypothesis R_trans : ∀ s1 s2 s3, R s1 s2 -> R s2 s3 -> R s1 s3.
Hypothesis f_proper : ∀ x s s', R s s' -> R (f s x) (f s' x).

Lemma fold_left_proper l s s' :
  R s s' -> R (fold_left f l s) (fold_left f l s').
Proof. revert s s'. induction l as [ | x l IH]; cbn; eauto. Qed.

Lemma fold_left_permutation l l' :
  l ≡ₚ l' ->
  (∀ x y s, x ∈ l -> y ∈ l -> R s s -> R (f (f s x) y) (f (f s y) x)) ->
  ∀ s s', R s s' -> R (fold_left f l s) (fold_left f l' s').
Proof.
  induction 1 as [ | x l l' Hp IH | x y l | l l' l'' Hp1 IH1 Hp2 IH2];
    intros Hcomm s s' Hs.
  - done.
  - cbn. apply IH; [ | by apply f_proper].
    intros a b s0 Ha Hb. apply Hcomm; by constructor.
  - cbn. apply fold_left_proper.
    apply R_trans with (f (f s x) y).
    + apply Hcomm; [by left | by right; left | eauto].
    + by apply f_proper, f_proper.
  - apply R_trans with (fold_left f l' s).
    + apply IH1; eauto.
    + apply IH2; [ | done].
      intros a b s0 Ha Hb. apply Hcomm; by rewrite Hp1.
Qed.
End FoldPermutation.

(** ** The builders do not depend on the order of a functional row list *)

Lemma sub_rows_fmap subject results :
  sub_rows subject results
  = (fun r => (t_subP r, t_subO r)) <$> filter (fun r => t_o r = subject) results.
Proof.
  unfold sub_rows. induction (filter _ results) as [ | r l IH]; [done | ].
  cbn. by rewrite <- IH.
Qed.

Lemma table_lookup_inj tbl sp1 sp2 k b1 b2 :
  NoDup (tbl.*2.*1) ->
  table_lookup tbl sp1 = Some (k, b1) -> table_lookup tbl sp2 = Some (k, b2) ->
  sp1 = sp2.
Proof.
  assert (Hin : ∀ tbl sp k b, table_lookup tbl sp = Some (k, b) -> k ∈ tbl.*2.*1).
  { clear. intros tbl sp k b. induction tbl as [ | [uri kf] tbl IH]; cbn; [done | ].
    case_decide; [intros [= ->]; by left | intros H'; right; auto]. }
  induction tbl as [ | [uri [k' b']] tbl IH]; cbn; [done | ].
  intros Hnd H1 H2. apply NoDup_cons in Hnd as [Hk Hnd].
  repeat case_decide; simplify_eq; try done.
  - exfalso. apply Hk. eauto.
  - exfalso. apply Hk. eauto.
  - eauto.
Qed.

Lemma same_outcome_sym {A} (r1 r2 : outcome A) : same_outcome r1 r2 -> same_outcome r2 r1.
Proof. destruct r1, r2; cbn; done. Qed.

Lemma same_outcome_trans {A} (r1 r2 r3 : outcome A) :
  same_outcome r1 r2 -> same_outcome r2 r3 -> same_outcome r1 r3.
Proof. destruct r1, r2, r3; cbn; try done. congruence. Qed.

Lemma assign_field_comm tbl (s : outcome dict) x y :
  NoDup (tbl.*2.*1) -> (x.1 = y.1 -> x.2 = y.2) ->
  same_outcome
    (outcome_bind (outcome_bind s (fun d => assign_field tbl d x))
       (fun d => assign_field tbl d y))
    (outcome_bind (outcome_bind s (fun d => assign_field tbl d y))
       (fun d => assign_field tbl d x)).
Proof.
  intros Hnd Hxy. destruct s as [d | e]; [ | done]. cbn [outcome_bind].
  destruct x as [spx sox], y as [spy soy]. cbn [fst snd] in *.
  destruct (decide (spx = spy)) as [-> | Hne].
  { rewrite (Hxy eq_refl). by destruct (outcome_bind _ _). }
  unfold assign_field; cbn [fst snd].
  destruct spx as [spx | ], spy as [spy | ]; cbn [outcome_bind];
    try by (repeat case_match; cbn; done).
  - destruct (table_lookup tbl spx) as [[kx bx] | ] eqn:Ex,
             (table_lookup tbl spy) as [[ky by'] | ] eqn:Ey;
      cbn [outcome_bind]; rewrite ?Ex, ?Ey.
    + assert (kx ≠ ky).
      { intros ->. apply Hne. f_equal. eapply table_lookup_inj; eauto. }
      destruct bx, by'; cbn [outcome_bind];
        repeat (destruct (py_int _); cbn [outcome_bind]); rewrite ?Ex, ?Ey;
        cbn [outcome_bind]; try done; by rewrite insert_insert_ne.
    + destruct bx; cbn [outcome_bind]; repeat (destruct (py_int _); cbn [outcome_bind]);
        rewrite ?Ey; done.
    + destruct by'; cbn [outcome_bind]; repeat (destruct (py_int _); cbn [outcome_bind]);
        rewrite ?Ex; done.
    + done.
  - destruct (table_lookup tbl spx) as [[kx [ | ]] | ]; cbn [outcome_bind];
      repeat (destruct (py_int _); cbn [outcome_bind]); done.
  - destruct (table_lookup tbl spy) as [[ky [ | ]] | ]; cbn [outcome_bind];
      repeat (destruct (py_int _); cbn [outcome_bind]); done.
Qed.

Lemma populate_entity_perm tbl init result results results' :
  NoDup (tbl.*2.*1) -> results ≡ₚ results' -> functional results ->
  same_outcome (populate_entity tbl init result results)
               (populate_entity tbl init result results').
Proof.
  intros Hnd Hp [_ Hf]. unfold populate_entity.
  apply (fold_left_permutation same_outcome).
  - apply @same_outcome_sym.
  - apply @same_outcome_trans.
  - intros x [d | e] [d' | e']; cbn; try done. intros ->. by destruct (assign_field _ _ _).
  - rewrite !sub_rows_fmap. by rewrite Hp.
  - intros x y s Hx Hy _. apply assign_field_comm; [done | ].
    rewrite sub_rows_fmap in Hx, Hy.
    apply list_elem_of_fmap in Hx as (tx & -> & Hx), Hy as (ty & -> & Hy).
    apply list_elem_of_filter in Hx as [Hx1 Hx2], Hy as [Hy1 Hy2].
    cbn. intros Hsp. apply Hf; congruence.
  - done.
Qed.

Lemma person_fields_keys : NoDup (person_fields.*2.*1).
Proof. apply (bool_decide_unpack _). vm_compute. exact I. Qed.

Lemma organization_fields_keys : NoDup (organization_fields.*2.*1).
Proof. apply (bool_decide_unpack _). vm_compute. exact I. Qed.

Lemma image_fields_keys : NoDup (image_fields.*2.*1).
Proof. apply (bool_decide_unpack _). vm_compute. exact I. Qed.

Lemma action_of_perm results results' result :
  results ≡ₚ results' -> functional results ->
  action_of results result = action_of results' result.
Proof.
  intros Hp Hf.
  pose proof (populate_entity_perm person_fields person_data result _ _
                person_fields_keys Hp Hf) as Hperson.
  pose proof (populate_entity_perm organization_fields organization_data result _ _
                organization_fields_keys Hp Hf) as Horg.
  pose proof (populate_entity_perm image_fields image_data result _ _
                image_fields_keys Hp Hf) as Himage.
  unfold action_of, agent_action, populate_person, populate_organization,
    populate_image_data.
  repeat case_decide; try reflexivity.
  all: repeat match goal with
       | H : same_outcome ?a ?b |- _ => destruct a, b; cbn in H; try done; subst
       end; reflexivity.
Qed.

(** ** Actions, key by key *)

Lemma apply_action_lookup act a k0 :
  apply_action act a !! k0 = key_effect act k0 (a !! k0).
Proof.
  destruct act as [ | k v | k x | k x]; cbn [apply_action key_effect].
  - done.
  - case_decide as Hk; [subst; by rewrite lookup_insert_eq | by rewrite lookup_insert_ne].
  - case_decide as Hk.
    + subst. destruct (a !! k0) as [[ | | | | l | ] | ] eqn:E; try done.
      by rewrite lookup_insert_eq.
    + destruct (a !! k) as [[ | | | | l | ] | ]; try done.
      by rewrite lookup_insert_ne.
  - case_decide as Hk.
    + subst. destruct (a !! k0) as [[ | | | | l | ] | ] eqn:E; try done.
      case_bool_decide; [done | by rewrite lookup_insert_eq].
    + destruct (a !! k) as [[ | | | | l | ] | ]; try done.
      case_bool_decide; [done | by rewrite lookup_insert_ne].
Qed.

Lemma fold_actions_lookup results l a k0 :
  fold_left (fun a t => apply_action (action_of results t) a) l a !! k0
  = fold_left (fun v t => key_effect (action_of results t) k0 v) l (a !! k0).
Proof.
  revert a. induction l as [ | t l IH]; intros a; [done | ].
  cbn. by rewrite IH, apply_action_lookup.
Qed.

Lemma populate_lookup results url k0 :
  populate_article_data results url !! k0
  = fold_left (fun v t => key_effect (action_of results t) k0 v) results
      (initial_article url !! k0).
Proof.
  unfold populate_article_data.
  rewrite fold_process_actions by apply shaped_initial.
  apply fold_actions_lookup.
Qed.

Lemma same_value_refl k v : same_value k v v.
Proof. by left. Qed.

Lemma same_value_sym k v1 v2 : same_value k v1 v2 -> same_value k v2 v1.
Proof.
  intros [-> | (Hk & l1 & l2 & -> & -> & Hp)]; [by left | ].
  right. split; [done | ]. by exists l2, l1.
Qed.

Lemma same_value_trans k v1 v2 v3 :
  same_value k v1 v2 -> same_value k v2 v3 -> same_value k v1 v3.
Proof.
  intros [-> | (Hk & l1 & l2 & -> & -> & Hp)]; [done | ].
  intros [<- | (_ & l2' & l3 & [= <-] & -> & Hp')].
  - right. split; [done | ]. by exists l1, l2.
  - right. split; [done | ]. exists l1, l3. split_and!; [done | done | by etrans].
Qed.

Lemma key_effect_proper act k0 v v' :
  same_value k0 v v' -> same_value k0 (key_effect act k0 v) (key_effect act k0 v').
Proof.
  intros [-> | (Hk & l1 & l2 & -> & -> & Hp)]; [by left | ].
  destruct act as [ | k w | k x | k x]; cbn [key_effect].
  - right. split; [done | ]. by exists l1, l2.
  - case_decide; [by left | ]. right. split; [done | ]. by exists l1, l2.
  - case_decide; right; (split; [done | ]).
    + exists (l1 ++ [x])%list, (l2 ++ [x])%list.
      split_and!; [done | done | by apply Permutation_app_tail].
    + by exists l1, l2.
  - case_decide; [ | right; split; [done | ]; by exists l1, l2].
    destruct (decide (x ∈ l1)) as [Hin | Hin].
    + rewrite !bool_decide_eq_true_2 by (by rewrite <- ?Hp).
      right. split; [done | ]. by exists l1, l2.
    + rewrite !bool_decide_eq_false_2 by (by rewrite <- ?Hp).
      right. split; [done | ]. exists (l1 ++ [x])%list, (l2 ++ [x])%list.
      split_and!; [done | done | by apply Permutation_app_tail].
Qed.

Lemma key_effect_comm ax ay k0 v :
  wf_action ax -> wf_action ay ->
  (∀ k w w', ax = ASet k w -> ay = ASet k w' -> w = w') ->
  same_value k0 (key_effect ay k0 (key_effect ax k0 v))
                (key_effect ax k0 (key_effect ay k0 v)).
Proof.
  intros Hx Hy Hset.
  destruct ax as [ | kx wx | kx x | kx x], ay as [ | ky wy | ky y | ky y];
    cbn [key_effect wf_action] in *; try (by left).
  all: destruct (decide (kx = k0)) as [-> | Hkx], (decide (ky = k0)) as [Hky | Hky];
    try (by left).
  all: subst.
  - left. f_equal. symmetry. by eapply Hset.
  - absurd_elem Hx.
  - split_elem Hy; absurd_elem Hx.
  - absurd_elem Hy.
  - destruct v as [[ | | | | l | ] | ]; try (by left).
    right. split; [apply (bool_decide_unpack _); vm_compute; exact I | ].
    eexists _, _. split_and!; [done | done | ].
    rewrite <- !(assoc_L (++)). apply Permutation_app_head, perm_swap.
  - absurd_elem Hy.
  - split_elem Hx; absurd_elem Hy.
  - absurd_elem Hx.
  - destruct v as [[ | | | | l | ] | ]; try (by left).
    assert (Hlk : k0 ∈ list_keys).
    { split_elem Hx; apply (bool_decide_unpack _); vm_compute; exact I. }
    repeat case_bool_decide; try (by left);
      repeat match goal with
      | H : _ ∈ (_ ++ [_])%list |- _ =>
          apply elem_of_app in H as [H | H%list_elem_of_singleton]
      | H : _ ∉ (_ ++ [_])%list |- _ => apply not_elem_of_app in H as [? H]
      | H : _ ∉ [_] |- _ => apply not_elem_of_cons in H as [? _]
      end; subst; try done; try (by left).
    + right. split; [done | ]. eexists _, _. split_and!; [done | done | ].
      rewrite <- !(assoc_L (++)). apply Permutation_app_head, perm_swap.
Qed.

Ltac split_action_of :=
  unfold action_of, agent_action;
  repeat first
    [ case_decide
    | match goal with
      | |- context [populate_person ?r ?rs] => destruct (populate_person r rs)
      | |- context [populate_organization ?r ?rs] => destruct (populate_organization r rs)
      | |- context [populate_image_data ?r ?rs] => destruct (populate_image_data r rs)
      | |- context [py_int ?v] => destruct (py_int v)
      | |- context [dict_truthy ?d] => destruct (dict_truthy d)
      end ];
  cbn [andb negb].

Lemma action_of_set results result k w :
  action_of results result = ASet k w ->
  t_p result = "http://schema.org/" +:+ k ∧ k ∈ scalar_keys.
Proof.
  split_action_of; intros [= <- <-] || discriminate.
  all: split; [assumption | apply (bool_decide_unpack _); vm_compute; exact I].
Qed.

Lemma action_of_set_same results t1 t2 k w :
  t_p t1 = t_p t2 -> t_o t1 = t_o t2 ->
  action_of results t1 = ASet k w -> action_of results t2 = ASet k w.
Proof.
  intros Hp Ho. unfold action_of, agent_action, populate_image_data, populate_entity.
  rewrite <- Hp, <- Ho.
  repeat case_decide; try done.
  all: repeat match goal with
       | |- context [populate_person ?r ?rs] => destruct (populate_person r rs)
       | |- context [populate_organization ?r ?rs] => destruct (populate_organization r rs)
       | |- context [dict_truthy ?d] => destruct (dict_truthy d)
       end; cbn [andb negb]; done.
Qed.

Lemma actions_compatible results t1 t2 k w w' :
  functional results -> t1 ∈ results -> t2 ∈ results ->
  action_of results t1 = ASet k w -> action_of results t2 = ASet k w' -> w = w'.
Proof.
  intros [Hf _] H1 H2 E1 E2.
  destruct (action_of_set _ _ _ _ E1) as [Hp1 Hk], (action_of_set _ _ _ _ E2) as [Hp2 _].
  assert (Ho : t_o t1 = t_o t2).
  { apply Hf; [done | done | congruence | ].
    rewrite Hp1. unfold single_valued_predicates. by apply list_elem_of_fmap_2. }
  apply (action_of_set_same results t1 t2 k w) in E1; congruence.
Qed.

(** The keywords are the objects of the keyword rows, in input order. *)
Lemma keywords_effect results result l :
  key_effect (action_of results result) "keywords" (Some (VList l))
  = Some (VList (l ++ (if decide (t_p result = "http://schema.org/keywords")
                       then [IStr (t_o result)] else []))).
Proof.
  split_action_of; cbn [key_effect];
    repeat (case_decide; try congruence; try discriminate);
    cbn [key_effect]; rewrite ?app_nil_r; try done; congruence.
Qed.

Lemma populate_keywords results url :
  populate_article_data results url !! "keywords"
  = Some (VList ((fun t => IStr (t_o t))
                   <$> filter (fun t => t_p t = "http://schema.org/keywords") results)).
Proof.
  rewrite populate_lookup.
  change (initial_article url !! "keywords") with (Some (VList [])).
  change (fun t => IStr (t_o t) : item) with (fun t => IStr (t_o t)).
  enough (H : ∀ l acc,
    fold_left (fun v t => key_effect (action_of results t) "keywords" v) l
      (Some (VList acc))
    = Some (VList (acc ++ ((fun t => IStr (t_o t))
        <$> filter (fun t => t_p t = "http://schema.org/keywords") l)))).
  { by rewrite H. }
  induction l as [ | t l IH]; intros acc; cbn [fold_left].
  - by rewrite filter_nil, fmap_nil, app_nil_r.
  - rewrite keywords_effect, IH, filter_cons.
    case_decide; [by rewrite fmap_cons, <- (assoc_L (++)) | by rewrite app_nil_r].
Qed.

Lemma fold_left_eq {S X} (f g : S -> X -> S) l s :
  (∀ s x, f s x = g s x) -> fold_left f l s = fold_left g l s.
Proof.
  intros H. revert s. induction l as [ | x l IH]; intros s; [done | ].
  cbn. by rewrite H, IH.
Qed.

Lemma populate_same_value results results' url k0 :
  results ≡ₚ results' -> functional results ->
  same_value k0 (populate_article_data results url !! k0)
                (populate_article_data results' url !! k0).
Proof.
  intros Hp Hf. rewrite !populate_lookup.
  rewrite (fold_left_eq (fun v t => key_effect (action_of results' t) k0 v)
             (fun v t => key_effect (action_of results t) k0 v))
    by (intros; by rewrite (action_of_perm results results')).
  apply (fold_left_permutation (same_value k0)).
  - apply same_value_sym.
  - apply same_value_trans.
  - intros; by apply key_effect_proper.
  - done.
  - intros x y s Hx Hy _. apply key_effect_comm; try apply wf_action_of.
    intros k w w' E1 E2. by eapply (actions_compatible results x y).
  - apply same_value_refl.
Qed.

Lemma shaped_populate results url : shaped (populate_article_data results url).
Proof. apply shaped_fold, shaped_initial. Qed.

Lemma fold_entities rs l acc k :
  k ∈ entity_keys ->
  fold_left (fun v t => key_effect (action_of rs t) k v) l (Some (VList acc))
  = Some (VList (fold_left add_new (omap (produced k rs) l) acc)).
Proof.
  intros Hk. revert acc. induction l as [ | t l IH]; intros acc; [done | ].
  cbn [fold_left omap list_omap].
  pose proof (wf_action_of rs t) as Hwf.
  assert (Hp : produced k rs t
               = match action_of rs t with
                 | AAddNew k' x => if decide (k' = k) then Some x else None
                 | _ => None
                 end) by done.
  rewrite Hp. clear Hp.
  destruct (action_of rs t) as [ | k' w | k' x | k' x] eqn:E; cbn [key_effect].
  - apply IH.
  - case_decide; [subst k' | apply IH]. cbn in Hwf.
    unfold entity_keys in Hk. split_elem Hk; absurd_elem Hwf.
  - case_decide; [subst k' | apply IH]. cbn in Hwf. subst k.
    absurd_elem Hk.
  - case_decide; [subst k' | apply IH]. cbn [fold_left].
    rewrite <- IH. unfold add_new. by case_bool_decide.
Qed.

(** The lists of [author], [publisher] and [image] hold the distinct
    entities the rows build, each at the place where the input first
    builds it. *)
Lemma populate_entities results url k :
  k ∈ entity_keys ->
  populate_article_data results url !! k
  = Some (VList (first_seen (omap (produced k results) results))).
Proof.
  intros Hk. rewrite populate_lookup.
  assert (initial_article url !! k = Some (VList [])) as ->.
  { unfold entity_keys in Hk. split_elem Hk; reflexivity. }
  by apply fold_entities.
Qed.

(** C1 (as amended): on a functional row list, every permutation of the
    rows yields a record that agrees with the original on every key other
    than [keywords], [author], [publisher] and [image]; under these four
    keys the two records hold lists that are permutations of one another;
    [author], [publisher] and [image] hold, for either order of the rows,
    the distinct entities the rows build, each at the place where that
    order first builds it; the keywords are the objects of the keyword
    rows in input order. *)
Theorem populate_article_data_permutation results results' url :
  results ≡ₚ results' -> functional results ->
  (∀ k, k ∉ list_keys ->
     populate_article_data results url !! k = populate_article_data results' url !! k)
  ∧ (∀ k, k ∈ list_keys ->
       ∃ l l', populate_article_data results url !! k = Some (VList l)
               ∧ populate_article_data results' url !! k = Some (VList l')
               ∧ l ≡ₚ l')
  ∧ (∀ k, k ∈ entity_keys ->
       populate_article_data results url !! k
       = Some (VList (first_seen (omap (produced k results) results)))
       ∧ populate_article_data results' url !! k
         = Some (VList (first_seen (omap (produced k results') results'))))
  ∧ populate_article_data results url !! "keywords"
    = Some (VList ((fun t => IStr (t_o t))
                     <$> filter (fun t => t_p t = "http://schema.org/keywords") results))
  ∧ populate_article_data results' url !! "keywords"
    = Some (VList ((fun t => IStr (t_o t))
                     <$> filter (fun t => t_p t = "http://schema.org/keywords") results')).
Proof.
  intros Hp Hf. split_and!.
  - intros k Hk.
    destruct (populate_same_value results results' url k Hp Hf)
      as [H | (Hk' & _)]; done.
  - intros k Hk.
    assert (∃ l, populate_article_data results url !! k = Some (VList l)) as [l Hl].
    { destruct (shaped_populate results url) as [? ? ? ? _ _ _ _].
      unfold list_keys in Hk. split_elem Hk; done. }
    destruct (populate_same_value results results' url k Hp Hf)
      as [H | (_ & l1 & l2 & H1 & H2 & H12)].
    + exists l, l. by rewrite <- H, Hl.
    + by exists l1, l2.
  - intros k Hk. split; by apply populate_entities.
  - apply populate_keywords.
  - apply populate_keywords.
Qed.

(** C7: an author row whose [@type] is neither [Person] nor [Organization]
    appends the empty dictionary to [author]; the publisher branch, which
    tests the built dictionary, appends nothing. *)
Theorem unknown_type_author_appended :
  populate_article_data
    [row2 "http://schema.org/author" "http://example.org/a1"
       "http://schema.org/@type" "Thing"] "http://example.org/n1" !! "author"
  = Some (VList [IDict ∅])
  ∧ populate_article_data
      [row2 "http://schema.org/publisher" "http://example.org/a1"
         "http://schema.org/@type" "Thing"] "http://example.org/n1" !! "publisher"
    = Some (VList []).
Proof. split; vm_compute; reflexivity. Qed.

(** C8: [audio] and [video] stay empty whatever the rows are, because the
    builders are called with their two arguments exchanged and raise; in
    particular a row with an audio object and a content URL adds nothing. *)
Theorem audio_video_never_appended results url :
  populate_article_data results url !! "audio" = Some (VList [])
  ∧ populate_article_data results url !! "video" = Some (VList [])
  ∧ populate_audio_data (ARows results)
      (ARow (row2 "http://schema.org/audio" "http://example.org/s1"
               "http://schema.org/contentUrl" "http://example.org/s1.mp3"))
    = Raise AttributeError
  ∧ populate_article_data
      [row2 "http://schema.org/audio" "http://example.org/s1"
         "http://schema.org/contentUrl" "http://example.org/s1.mp3"]
      "http://example.org/n1" !! "audio"
    = Some (VList []).
Proof.
  split_and!.
  - rewrite populate_frozen; [done | ]. apply (bool_decide_unpack _). vm_compute. exact I.
  - rewrite populate_frozen; [done | ]. apply (bool_decide_unpack _). vm_compute. exact I.
  - done.
  - vm_compute. reflexivity.
Qed.




(** * Properties of the recommendation pipeline *)

(** ** The stable sort *)

Section SortBy.
Context {A : Type} (key : A -> Q).

Lemma insert_by_perm (stays : A -> A -> bool) x l :
  insert_by stays x l ≡ₚ x :: l.
Proof.
  induction l as [ | y l IH]; cbn; [done | ].
  destruct (stays y x); [ | done]. rewrite IH. apply perm_swap.
Qed.

Lemma sort_by_perm (stays : A -> A -> bool) l : sort_by stays l ≡ₚ l.
Proof.
  induction l as [ | x l IH]; cbn; [done | ].
  rewrite insert_by_perm. by rewrite IH.
Qed.

Lemma Qlt_bool_true x y : Qlt_bool x y = true -> (x < y)%Q.
Proof.
  unfold Qlt_bool. intros H. apply negb_true_iff in H.
  apply Qnot_le_lt. intros Hle. apply Qle_bool_iff in Hle. congruence.
Qed.

Lemma Qlt_bool_false x y : Qlt_bool x y = false -> (y <= x)%Q.
Proof.
  unfold Qlt_bool. intros H. apply negb_false_iff in H. by apply Qle_bool_iff.
Qed.

Lemma sorted_reverse_insert x l :
  StronglySorted (descending key) l ->
  StronglySorted (descending key)
    (insert_by (fun y x => Qlt_bool (key x) (key y)) x l).
Proof.
  induction 1 as [ | y l Hs IH Hall]; cbn; [repeat constructor | ].
  destruct (Qlt_bool (key x) (key y)) eqn:E.
  - constructor; [done | ].
    rewrite insert_by_perm. constructor; [ | done].
    apply Qlt_bool_true in E. unfold descending. by apply Qlt_le_weak.
  - apply Qlt_bool_false in E. constructor; [by constructor | ].
    constructor; [done | ].
    eapply Forall_impl; [exact Hall | ]. unfold descending. intros z Hz.
    by apply Qle_trans with (key y).
Qed.

Lemma sorted_reverse_sorted l : StronglySorted (descending key) (sorted_reverse key l).
Proof.
  unfold sorted_reverse, sort_by.
  induction l as [ | x l IH]; cbn; [constructor | by apply sorted_reverse_insert].
Qed.

Lemma filter_insert_by (P : A -> bool) (stays : A -> A -> bool) x l :
  (∀ y, stays y x = true -> P y = true -> P x = true -> False) ->
  List.filter P (insert_by stays x l) = List.filter P (x :: l).
Proof.
  intros Hpass. induction l as [ | y l IH]; [done | ].
  cbn [insert_by]. destruct (stays y x) eqn:E; [ | done].
  cbn [List.filter] in *. rewrite IH.
  destruct (P x) eqn:Ex, (P y) eqn:Ey; try done.
  exfalso. by eapply Hpass.
Qed.

(** Elements with the same key keep their order. *)
Lemma sorted_reverse_stable q l :
  List.filter (fun x => Qeq_bool (key x) q) (sorted_reverse key l)
  = List.filter (fun x => Qeq_bool (key x) q) l.
Proof.
  unfold sorted_reverse, sort_by.
  induction l as [ | x l IH]; [done | ].
  cbn [foldr]. rewrite filter_insert_by.
  - cbn [List.filter]. by rewrite IH.
  - intros y Hlt Hy Hx. apply Qlt_bool_true in Hlt.
    apply Qeq_bool_iff in Hy, Hx. rewrite Hy, Hx in Hlt.
    by apply Qlt_irrefl in Hlt.
Qed.
End SortBy.

Lemma StronglySorted_take {A} (R : A -> A -> Prop) n (l : list A) :
  StronglySorted R l -> StronglySorted R (take n l).
Proof.
  intros H. revert n. induction H as [ | x l Hs IH Hall]; intros [ | n]; cbn;
    try constructor; [apply IH | by apply Forall_take].
Qed.

Lemma slice_to_take {A} (l : list A) k : ∃ n, slice_to l k = take n l.
Proof. unfold slice_to. destruct (0 <=? k); eauto. Qed.

Lemma slice_to_length {A} (l : list A) k :
  0 <= k -> Z.of_nat (List.length (slice_to l k)) <= k.
Proof.
  intros Hk. unfold slice_to. rewrite (proj2 (Z.leb_le 0 k) Hk).
  rewrite length_take. lia.
Qed.

Lemma filter_take_prefix {A} (P : A -> bool) n (l : list A) :
  List.filter P (take n l) `prefix_of` List.filter P l.
Proof.
  exists (List.filter P (drop n l)).
  rewrite <- List.filter_app. by rewrite take_drop.
Qed.

(** ** Scoring, ranking and candidate retrieval *)

Section ServiceProperties.
Context {datetime : Type}.
Context (fromisoformat : string -> option datetime).
Context (datetime_lt : datetime -> datetime -> outcome bool).
Context (fuseki_article : string -> http_result (list Tuple)).
Context (fuseki_search :
           match_kind -> search_args datetime -> http_result (list (gmap string string))).
Context (tfidf_cosine : list string -> outcome (list (list Q))).

Lemma scored_copy_history c r user_history :
  scored_copy c r -> url_in_history r user_history = url_in_history c user_history.
Proof.
  intros (s & f & ->). unfold url_in_history.
  by rewrite !lookup_insert_ne by done.
Qed.

(** The scoring loop keeps the unseen candidates, in candidate order. *)
Lemma score_articles_unseen similarity_scores (preferences : Preferences datetime)
    user_history idx candidates scored :
  score_articles similarity_scores preferences user_history idx candidates = Ok scored ->
  Forall2 scored_copy (unseen user_history candidates) scored.
Proof.
  revert idx scored. induction candidates as [ | c cs IH]; intros idx scored; cbn.
  - intros [= <-]. constructor.
  - destruct (url_in_history c user_history); cbn [negb]; [apply IH | ].
    destruct (similarity_scores !! idx) as [s | ]; cbn; [ | done].
    destruct (_calculate_metadata_similarity c preferences) as [m | ]; cbn; [ | done].
    destruct (score_articles _ _ _ _ cs) as [rest | ] eqn:E; cbn; [ | done].
    intros [= <-]. constructor; [by eexists _, _ | by eapply IH].
Qed.

(** What [_rank_articles] returns: nothing, or a slice of the sorted
    scored candidates. *)
Lemma rank_articles_inv viewed candidates (preferences : Preferences datetime)
    user_history max_recommendations ranked :
  _rank_articles tfidf_cosine viewed candidates preferences user_history
    max_recommendations = Ok ranked ->
  ranked = []
  ∨ ∃ scored n,
      Forall2 scored_copy (unseen user_history candidates) scored
      ∧ ranked = slice_to (sorted_reverse final_score scored) max_recommendations
      ∧ ranked = take n (sorted_reverse final_score scored).
Proof.
  unfold _rank_articles. destruct candidates as [ | c cs]; [intros [= <-]; by left | ].
  generalize (c :: cs). clear c cs. intros candidates.
  destruct (all_outcomes (article_text <$> viewed)) as [vt | ];
    cbn [outcome_bind]; [ | done].
  destruct (all_outcomes (article_text <$> candidates)) as [ct | ];
    cbn [outcome_bind]; [ | done].
  destruct (tfidf_cosine _) as [m | ]; cbn [outcome_bind];
    [ | intros [= <-]; by left].
  destruct (score_articles _ _ _ _ _) as [scored | ] eqn:E; cbn [outcome_bind];
    [ | intros [= <-]; by left].
  intros [= <-]. right.
  destruct (slice_to_take (sorted_reverse final_score scored) max_recommendations)
    as [n Hn].
  exists scored, n. split_and!; [by eapply score_articles_unseen | done | done].
Qed.

(** C4: every recommendation is the scored copy of a candidate whose URL
    is not in the history, and its own URL is not in the history. *)
Theorem rank_articles_excludes_history viewed candidates
    (preferences : Preferences datetime) user_history max_recommendations ranked :
  _rank_articles tfidf_cosine viewed candidates preferences user_history
    max_recommendations = Ok ranked ->
  Forall (fun r => url_in_history r user_history = false
                   ∧ ∃ c, c ∈ candidates
                          ∧ url_in_history c user_history = false
                          ∧ scored_copy c r) ranked.
Proof.
  intros H. apply rank_articles_inv in H as [-> | (scored & n & Hs & _ & ->)];
    [constructor | ].
  apply Forall_forall. intros r Hr.
  apply elem_of_take in Hr as (i & Hr & _).
  apply list_elem_of_lookup_2 in Hr.
  unfold sorted_reverse in Hr. rewrite sort_by_perm in Hr.
  apply list_elem_of_lookup_1 in Hr as [j Hj].
  destruct (Forall2_lookup_r _ _ _ _ _ Hs Hj) as (c & Hc & Hcr).
  apply list_elem_of_lookup_2, list_elem_of_In, List.filter_In in Hc as [Hin Hc].
  apply negb_true_iff in Hc. split.
  - by rewrite (scored_copy_history c r).
  - exists c. split_and!; [by apply list_elem_of_In | done | done].
Qed.

Lemma scored_articles_unseen viewed_texts candidate_texts candidates
    (preferences : Preferences datetime) user_history scored :
  scored_articles tfidf_cosine viewed_texts candidate_texts candidates preferences
    user_history = Ok scored ->
  Forall2 scored_copy (unseen user_history candidates) scored.
Proof.
  unfold scored_articles.
  destruct (tfidf_cosine _) as [m | ]; cbn [outcome_bind]; [ | done].
  apply score_articles_unseen.
Qed.

Lemma rank_articles_cases viewed candidates (preferences : Preferences datetime)
    user_history max_recommendations ranked :
  _rank_articles tfidf_cosine viewed candidates preferences user_history
    max_recommendations = Ok ranked ->
  (candidates = [] ∧ ranked = [])
  ∨ ∃ viewed_texts candidate_texts,
      candidates ≠ []
      ∧ all_outcomes (article_text <$> viewed) = Ok viewed_texts
      ∧ all_outcomes (article_text <$> candidates) = Ok candidate_texts
      ∧ match scored_articles tfidf_cosine viewed_texts candidate_texts candidates
                preferences user_history with
        | Ok scored =>
            ranked = slice_to (sorted_reverse final_score scored) max_recommendations
        | Raise _ => ranked = []
        end.
Proof.
  unfold _rank_articles. destruct candidates as [ | c cs]; [intros [= <-]; by left | ].
  assert (Hne : c :: cs ≠ []) by done. revert Hne.
  generalize (c :: cs). clear c cs. intros candidates Hne.
  destruct (all_outcomes (article_text <$> viewed)) as [vt | ];
    cbn [outcome_bind]; [ | done].
  destruct (all_outcomes (article_text <$> candidates)) as [ct | ];
    cbn [outcome_bind]; [ | done].
  intros H. right. exists vt, ct. split_and!; try done.
  unfold scored_articles.
  destruct (tfidf_cosine _) as [m | ]; cbn [outcome_bind] in *;
    [ | by injection H as <-].
  destruct (score_articles _ _ _ _ _) as [scored | ]; cbn [outcome_bind] in *;
    by injection H as <-.
Qed.

(** C3: the recommendations are in non-increasing order of [final_score]
    and there are at most [max_recommendations] of them, that bound being
    a count; when the scoring of the candidates succeeds they are the first
    elements of the stable descending sort of the scored candidates outside
    the history: followed by the remaining ones they are a permutation of
    those, in non-increasing order, in which the candidates with one score
    keep their candidate order; when there is no candidate, or the scoring
    raises, there is no recommendation. *)
Theorem rank_articles_sorted_stable_bounded viewed candidates
    (preferences : Preferences datetime) user_history max_recommendations ranked :
  _rank_articles tfidf_cosine viewed candidates preferences user_history
    max_recommendations = Ok ranked ->
  StronglySorted (descending final_score) ranked
  ∧ (0 <= max_recommendations ->
     Z.of_nat (List.length ranked) <= max_recommendations)
  ∧ (candidates = [] -> ranked = [])
  ∧ ∀ viewed_texts candidate_texts,
      candidates ≠ [] ->
      all_outcomes (article_text <$> viewed) = Ok viewed_texts ->
      all_outcomes (article_text <$> candidates) = Ok candidate_texts ->
      match scored_articles tfidf_cosine viewed_texts candidate_texts candidates
              preferences user_history with
      | Raise _ => ranked = []
      | Ok scored =>
          Forall2 scored_copy (unseen user_history candidates) scored
          ∧ ∃ rest,
              (ranked ++ rest)%list ≡ₚ scored
              ∧ StronglySorted (descending final_score) (ranked ++ rest)%list
              ∧ (∀ q, with_score q (ranked ++ rest)%list = with_score q scored)
              ∧ (0 <= max_recommendations ->
                 List.length ranked
                 = Nat.min (Z.to_nat max_recommendations) (List.length scored))
      end.
Proof.
  intros H. apply rank_articles_cases in H
    as [[-> ->] | (vt & ct & Hne & Hvt & Hct & H)].
  { split_and!; [constructor | cbn; lia | done | done]. }
  destruct (scored_articles tfidf_cosine vt ct candidates preferences user_history)
    as [scored | e] eqn:Es.
  - destruct (slice_to_take (sorted_reverse final_score scored) max_recommendations)
      as [n Hn].
    split_and!.
    + rewrite H, Hn. apply StronglySorted_take, sorted_reverse_sorted.
    + intros Hk. rewrite H. by apply slice_to_length.
    + done.
    + intros vt' ct' _ Hvt' Hct'. rewrite Hvt in Hvt'. rewrite Hct in Hct'.
      injection Hvt' as <-. injection Hct' as <-. rewrite Es.
      split; [by eapply scored_articles_unseen | ].
      exists (drop n (sorted_reverse final_score scored)).
      rewrite H, Hn, take_drop. split_and!.
      * apply sort_by_perm.
      * apply sorted_reverse_sorted.
      * intros q. apply sorted_reverse_stable.
      * intros Hk. rewrite <- Hn. unfold slice_to.
        assert ((0 <=? max_recommendations) = true) as -> by lia.
        rewrite length_take. unfold sorted_reverse.
        by rewrite (Permutation_length (sort_by_perm _ scored)).
  - subst ranked. split_and!; [constructor | cbn; lia | done | ].
    intros vt' ct' _ Hvt' Hct'. rewrite Hvt in Hvt'. rewrite Hct in Hct'.
    injection Hvt' as <-. injection Hct' as <-. by rewrite Es.
Qed.

(** One call of [advanced_search] adds its arguments to the trace, and its
    answer does not depend on the trace. *)
Lemma advanced_search_trace args trace :
  (advanced_search fuseki_search args trace).2 = (trace ++ [args])%list
  ∧ (advanced_search fuseki_search args trace).1
    = (advanced_search fuseki_search args []).1.
Proof.
  unfold advanced_search, bind, log_call, lift, ret. cbn.
  destruct (search_advanced_exact_match _ _ _) as [[ | a l] | ]; cbn; [ | done | done].
  destruct (search_advanced_partial_match _ _ _); done.
Qed.

(** C5: when the strict call of the candidate source finds nothing, the
    trace gains the strict call and one relaxed call and nothing else;
    the relaxed arguments are the strict ones with [author_name] and
    [publisher] cleared; the answer is the answer of the relaxed call;
    and when that is empty too, [get_recommendations] returns the empty
    list. *)
Theorem relaxation_once (preferences : Preferences datetime) trace match_type :
  (advanced_search fuseki_search (strict_args preferences) trace).1
    = Ok ([], match_type) ->
  (_get_candidate_articles fuseki_search preferences trace).2
    = (trace ++ [strict_args preferences; relaxed_args (relax preferences)])%list
  ∧ relaxed_args (relax preferences)
    = {| sa_keywords := sa_keywords _ (strict_args preferences);
         sa_wordcount := sa_wordcount _ (strict_args preferences);
         sa_inLanguage := sa_inLanguage _ (strict_args preferences);
         sa_author_name := PyNone;
         sa_author_nationality := sa_author_nationality _ (strict_args preferences);
         sa_publisher := PyNone;
         sa_datePublished := sa_datePublished _ (strict_args preferences);
         sa_wordcount_min := sa_wordcount_min _ (strict_args preferences);
         sa_wordcount_max := sa_wordcount_max _ (strict_args preferences);
         sa_datePublished_min := sa_datePublished_min _ (strict_args preferences);
         sa_datePublished_max := sa_datePublished_max _ (strict_args preferences) |}
  ∧ (_get_candidate_articles fuseki_search preferences trace).1
    = match (advanced_search fuseki_search (relaxed_args (relax preferences))
               (trace ++ [strict_args preferences])%list).1 with
      | Ok found => Ok found.1
      | Raise e => Raise e
      end
  ∧ ∀ match_type' user_history max_recommendations,
      (advanced_search fuseki_search (relaxed_args (relax preferences))
         (trace ++ [strict_args preferences])%list).1 = Ok ([], match_type') ->
      _extract_user_preferences fromisoformat datetime_lt
        (filter (fun results : article => results ≠ ∅)
           (get_article_by_url fuseki_article <$> user_history)) = Ok preferences ->
      (get_recommendations fromisoformat datetime_lt fuseki_article fuseki_search
         tfidf_cosine user_history max_recommendations trace).1 = Ok [].
Proof.
  intros Hstrict.
  pose proof (advanced_search_trace (strict_args preferences) trace) as [Ht1 _].
  pose proof (advanced_search_trace (relaxed_args (relax preferences))
                (trace ++ [strict_args preferences])%list) as [Ht2 _].
  assert (Hrun : _get_candidate_articles fuseki_search preferences trace
    = match advanced_search fuseki_search (relaxed_args (relax preferences))
              (trace ++ [strict_args preferences])%list with
      | (Ok found, t) => (Ok found.1, t)
      | (Raise e, t) => (Raise e, t)
      end).
  { unfold _get_candidate_articles, bind at 1.
    destruct (advanced_search fuseki_search (strict_args preferences) trace)
      as [r t] eqn:E. cbn in Hstrict, Ht1. subst r t. cbn [fst].
    unfold bind, ret.
    by destruct (advanced_search fuseki_search (relaxed_args (relax preferences)) _)
      as [[? | ?] ?]. }
  split_and!.
  - rewrite Hrun.
    destruct (advanced_search fuseki_search (relaxed_args (relax preferences)) _)
      as [[? | ?] t]; cbn in *; subst t; by rewrite <- (assoc_L (++)).
  - reflexivity.
  - rewrite Hrun.
    by destruct (advanced_search fuseki_search (relaxed_args (relax preferences)) _)
      as [[? | ?] t].
  - intros match_type' user_history max_recommendations Hrelaxed Hprefs.
    unfold get_recommendations.
    destruct (filter _ _) as [ | v vs]; [done | ].
    unfold bind at 1, lift at 1. rewrite Hprefs.
    unfold bind at 1. rewrite Hrun.
    destruct (advanced_search fuseki_search (relaxed_args (relax preferences)) _)
      as [[? | ?] t]; cbn in Hrelaxed; [ | done].
    injection Hrelaxed as ->. by cbn.
Qed.
End ServiceProperties.

(** ** The pipeline on the test double *)

(** C2: the candidates the search returns carry their author as a plain
    string, which is neither a list nor a dictionary for
    [_calculate_metadata_similarity]: the candidate written by the preferred
    author scores no author match. *)
Theorem metadata_ignores_author_string :
  (demo_candidates !! 0%nat) ≫= (fun c => c !! "author") = Some (VStr "Alice")
  ∧ author_name demo_preferences = PyStr "Alice"
  ∧ Forall (fun c => _calculate_metadata_similarity c demo_preferences = Ok 0%Q)
      demo_candidates.
Proof. split_and!; [vm_compute; reflexivity | reflexivity | ]. repeat constructor. Qed.

(** C6: the triple store answers the article query and then the search
    request fails in transport: the [RequestException] leaves
    [get_recommendations]. *)
Theorem search_failure_escapes :
  (get_recommendations demo_fromisoformat demo_datetime_lt demo_article_store
     search_down demo_tfidf demo_history 10 []).1
  = Raise RequestException.
Proof. vm_compute. reflexivity. Qed.

(** The same failure of the article query is caught: the history is
    materialized from no rows. *)
Lemma article_failure_caught url :
  get_article_by_url (fun _ => ConnectionFailed) url = initial_article url.
Proof. reflexivity. Qed.

(** C1, as stated, fails: two headline rows in either order give different
    headlines, and two author rows in either order give the authors in
    different orders. *)
Lemma permutation_changes_record :
  [row "http://schema.org/headline" "A"; row "http://schema.org/headline" "B"]
    ≡ₚ [row "http://schema.org/headline" "B"; row "http://schema.org/headline" "A"]
  ∧ populate_article_data
      [row "http://schema.org/headline" "A"; row "http://schema.org/headline" "B"]
      "http://example.org/n1" !! "headline"
    ≠ populate_article_data
        [row "http://schema.org/headline" "B"; row "http://schema.org/headline" "A"]
        "http://example.org/n1" !! "headline"
  ∧ populate_article_data
      [ row2 "http://schema.org/author" "http://example.org/a"
          "http://schema.org/@type" "Person";
        row2 "http://schema.org/author" "http://example.org/b"
          "http://schema.org/@type" "Organization" ]
      "http://example.org/n1" !! "author"
    ≠ populate_article_data
        [ row2 "http://schema.org/author" "http://example.org/b"
            "http://schema.org/@type" "Organization";
          row2 "http://schema.org/author" "http://example.org/a"
            "http://schema.org/@type" "Person" ]
        "http://example.org/n1" !! "author".
Proof.
  split_and!.
  - apply perm_swap.
  - vm_compute. discriminate.
  - vm_compute. discriminate.
Qed.

(** A negative [max_recommendations] is no count: the slice then drops
    elements from the end, and with [-1] and two unseen candidates one
    recommendation is returned. *)
Lemma negative_bound_exceeded :
  ∃ ranked,
    _rank_articles demo_tfidf demo_viewed demo_candidates demo_preferences
      demo_history (-1) = Ok ranked
    ∧ List.length ranked = 1%nat
    ∧ ¬ (Z.of_nat (List.length ranked) <= -1).
Proof.
  exists demo_ranked_negative.
  assert (E : List.length demo_ranked_negative = 1%nat) by (vm_compute; reflexivity).
  split_and!; [vm_compute; reflexivity | exact E | rewrite E; lia].
Qed.

(** ** Word-count bounds *)

Lemma Qle_bool_inject y x : Qle_bool (inject_Z y) (inject_Z x) = (y <=? x).
Proof. unfold Qle_bool. cbn. by rewrite !Z.mul_1_r. Qed.

Lemma insert_by_fmap {A B} (f : A -> B) (stays : A -> A -> bool)
    (stays' : B -> B -> bool) x l :
  (∀ a b, stays' (f a) (f b) = stays a b) ->
  insert_by stays' (f x) (f <$> l) = f <$> insert_by stays x l.
Proof.
  intros H. induction l as [ | y l IH]; [done | ].
  cbn. rewrite H. destruct (stays y x); [ | done]. cbn. by rewrite <- IH.
Qed.

Lemma sort_by_fmap {A B} (f : A -> B) (stays : A -> A -> bool)
    (stays' : B -> B -> bool) l :
  (∀ a b, stays' (f a) (f b) = stays a b) ->
  sort_by stays' (f <$> l) = f <$> sort_by stays l.
Proof.
  intros H. unfold sort_by. induction l as [ | x l IH]; [done | ].
  cbn. rewrite IH. by apply insert_by_fmap.
Qed.

Lemma sort_by_length {A} (stays : A -> A -> bool) l :
  List.length (sort_by stays l) = List.length l.
Proof. apply Permutation_length, sort_by_perm. Qed.

Lemma int_of_float_proper q q' : (q == q')%Q -> int_of_float q = int_of_float q'.
Proof.
  intros H. unfold int_of_float.
  assert (Qle_bool 0 q = Qle_bool 0 q') as ->.
  { apply eq_true_iff_eq. rewrite !Qle_bool_iff. by rewrite H. }
  destruct (Qle_bool 0 q'); [by apply Qfloor_comp | by apply Qceiling_comp].
Qed.

Lemma ceiling_floor_succ h :
  ¬ (h == inject_Z (Qfloor h))%Q -> Qceiling h = Qfloor h + 1.
Proof.
  intros Hne.
  assert (Qceiling h - 1 < Qfloor h + 1) as H1.
  { rewrite Zlt_Qlt. eapply Qlt_trans; [apply Qceiling_lt | apply Qlt_floor]. }
  assert (Qfloor h < Qceiling h) as H2.
  { rewrite Zlt_Qlt. apply Qlt_le_trans with h; [ | apply Qle_ceiling].
    destruct (proj1 (Qle_lteq _ _) (Qfloor_le h)) as [H | H]; [done | ].
    exfalso. apply Hne. by symmetry. }
  lia.
Qed.

Lemma nth_inject_Z i (s : list Z) :
  nth i (inject_Z <$> s) 0%Q = inject_Z (nth i s 0).
Proof. change 0%Q with (inject_Z 0). apply map_nth. Qed.

Lemma np_percentile_linear l p :
  l ≠ [] -> (0 <= p)%Q -> (p <= 100)%Q ->
  (np_percentile (inject_Z <$> l) p == linear_percentile l p)%Q.
Proof.
  intros Hl Hp0 Hp1. unfold np_percentile, linear_percentile.
  rewrite (sort_by_fmap inject_Z (fun y x => y <=? x)) by apply Qle_bool_inject.
  rewrite length_fmap, sort_by_length.
  set (n := Z.of_nat (List.length l)).
  set (h := (inject_Z (n - 1) * p / 100)%Q).
  set (s := sort_by (fun y x => y <=? x) l).
  assert (Hn : 1 <= n).
  { unfold n. destruct l; [done | cbn [List.length]; lia]. }
  rewrite !nth_inject_Z.
  destruct (Qeq_dec h (inject_Z (Qfloor h))) as [Hint | Hne].
  - assert (h - inject_Z (Qfloor h) == 0)%Q as -> by lra. ring.
  - rewrite (ceiling_floor_succ h Hne).
    assert (Qfloor h + 1 <= n - 1).
    { assert (h <= inject_Z (n - 1))%Q as Hh.
      { unfold h. assert (0 <= inject_Z (n - 1))%Q.
        { change 0%Q with (inject_Z 0). rewrite <- Zle_Qle. lia. }
        apply Qle_shift_div_r; [done | ]. nra. }
      pose proof (Qfloor_le h) as H1.
      destruct (decide (Qfloor h < n - 1)) as [ | Hge]; [lia | exfalso].
      assert (inject_Z (n - 1) <= inject_Z (Qfloor h))%Q by (rewrite <- Zle_Qle; lia).
      apply Hne. lra. }
    rewrite Z.min_l by done. ring.
Qed.

Lemma collected_word_counts viewed_articles :
  Forall integer_word_count viewed_articles ->
  List.concat (collect_word_count <$> viewed_articles)
  = VInt <$> nonzero_word_counts viewed_articles.
Proof.
  unfold nonzero_word_counts, exposed_word_counts.
  induction 1 as [ | a l Ha Hl IH]; [done | ].
  cbn [fmap list_fmap List.concat omap list_omap]. rewrite IH.
  unfold collect_word_count, integer_word_count in *.
  destruct (a !! "wordCount") as [[ | | z | | | ] | ]; try done.
  cbn. by destruct (z =? 0).
Qed.

Lemma small_below_float_limit z : Z.abs z < 2 ^ 50 -> (Z.abs z <? float_limit) = true.
Proof.
  intros H. apply Z.ltb_lt. eapply Z.lt_trans; [exact H | ]. by vm_compute.
Qed.

Lemma as_numbers_ints l :
  Forall (fun z => Z.abs z < 2 ^ 50) l ->
  as_numbers (VInt <$> l) = Ok (inject_Z <$> l).
Proof.
  induction 1 as [ | z l Hz _ IH]; [done | ].
  cbn [fmap list_fmap as_numbers]. rewrite small_below_float_limit by done.
  change (list_fmap Z aval VInt l) with (VInt <$> l). by rewrite IH.
Qed.

Lemma small_nonzero_word_counts viewed_articles :
  Forall small_word_count viewed_articles ->
  Forall (fun z => Z.abs z < 2 ^ 50) (nonzero_word_counts viewed_articles).
Proof.
  intros H. apply Forall_forall. intros z Hz.
  apply list_elem_of_In, filter_In in Hz as [Hz _]. apply list_elem_of_In in Hz.
  apply list_elem_of_omap in Hz as (a & Ha & Hz).
  rewrite Forall_forall in H. apply (H a Ha).
  by destruct (a !! "wordCount") as [[ | | z' | | | ] | ]; simplify_eq.
Qed.

(** C10 (as amended): on a history whose word counts are integers of
    magnitude below [2^50], the bounds are the linear-interpolated 25th and
    75th percentiles of the non-zero word counts of the history, truncated
    toward zero; both are absent when there is no non-zero word count. *)
Theorem wordcount_bounds {datetime} (fromisoformat : string -> option datetime)
    (datetime_lt : datetime -> datetime -> outcome bool)
    viewed_articles (preferences : Preferences datetime) :
  Forall integer_word_count viewed_articles ->
  Forall small_word_count viewed_articles ->
  _extract_user_preferences fromisoformat datetime_lt viewed_articles = Ok preferences ->
  (nonzero_word_counts viewed_articles = [] ->
     wordcount_min preferences = None ∧ wordcount_max preferences = None)
  ∧ (nonzero_word_counts viewed_articles ≠ [] ->
       wordcount_min preferences
       = Some (int_of_float (linear_percentile (nonzero_word_counts viewed_articles) 25))
       ∧ wordcount_max preferences
         = Some (int_of_float (linear_percentile (nonzero_word_counts viewed_articles) 75))).
Proof.
  intros Hint Hsmall. unfold _extract_user_preferences.
  rewrite (collected_word_counts _ Hint).
  apply small_nonzero_word_counts in Hsmall.
  set (wcs := nonzero_word_counts viewed_articles) in *.
  do 3 match goal with
       | |- outcome_bind ?x _ = _ -> _ =>
           destruct x as [? | ]; cbn [outcome_bind]; [ | done]
       end.
  assert (Hwc :
    match VInt <$> wcs with
    | [] => Ok (None, None)
    | _ :: _ =>
        outcome_bind (as_numbers (VInt <$> wcs)) (fun ns =>
          Ok (Some (int_of_float (np_percentile ns 25)),
              Some (int_of_float (np_percentile ns 75))))
    end
    = Ok (match wcs with
          | [] => (None, None)
          | _ :: _ =>
              (Some (int_of_float (linear_percentile wcs 25)),
               Some (int_of_float (linear_percentile wcs 75)))
          end)).
  { destruct wcs as [ | z l] eqn:E; [done | ].
    rewrite <- E in Hsmall |- *. rewrite (as_numbers_ints wcs Hsmall).
    cbn [outcome_bind fmap list_fmap].
    rewrite E at 1. cbn [fmap list_fmap]. do 3 f_equal.
    - apply int_of_float_proper, np_percentile_linear; [by rewrite E | done | done].
    - apply int_of_float_proper, np_percentile_linear; [by rewrite E | done | done]. }
  rewrite Hwc. cbn [outcome_bind].
  do 2 match goal with
       | |- outcome_bind ?x _ = _ -> _ =>
           destruct x as [? | ]; cbn [outcome_bind]; [ | done]
       end.
  intros [= <-]. cbn. split; intros H; destruct wcs; done.
Qed.

(** C10, as stated, fails: on the word counts 1 and 2 the bound is 1, not
    the interpolated 5/4; and a word count of 0 is left out, so that on
    0, 100, 200, 300, 400 the bounds are 175 and 325, not the percentiles
    100 and 300 of the five exposed word counts. *)
Lemma percentile_truncated_and_zero_dropped :
  (match _extract_user_preferences demo_fromisoformat demo_datetime_lt
           (word_count_article <$> counts_small) with
   | Ok p => wordcount_min p
   | Raise _ => None
   end = Some 1
   ∧ Qeq (linear_percentile
            (exposed_word_counts (word_count_article <$> counts_small)) 25)
         (5 # 4))
  ∧ (match _extract_user_preferences demo_fromisoformat demo_datetime_lt
             (word_count_article <$> counts_with_zero) with
     | Ok p => wordcount_min p
     | Raise _ => None
     end = Some 175
     ∧ Qeq (linear_percentile
              (exposed_word_counts (word_count_article <$> counts_with_zero)) 25)
           100).
Proof. split_and!; vm_compute; reflexivity. Qed.

(** ** The theorems at concrete inputs *)

Lemma demo_rows_functional : functional demo_rows.
Proof.
  split; intros t1 t2 H1 H2; unfold demo_rows in *;
    split_elem H1; split_elem H2; cbn; intros Hp Hm;
    try congruence; absurd_elem Hm.
Defined.

Lemma populate_article_data_permutation_witness :
  (∀ k, k ∉ list_keys ->
     populate_article_data demo_rows demo_url !! k
     = populate_article_data (reverse demo_rows) demo_url !! k)
  ∧ (∀ k, k ∈ list_keys ->
       ∃ l l', populate_article_data demo_rows demo_url !! k = Some (VList l)
               ∧ populate_article_data (reverse demo_rows) demo_url !! k
                 = Some (VList l')
               ∧ l ≡ₚ l')
  ∧ (∀ k, k ∈ entity_keys ->
       populate_article_data demo_rows demo_url !! k
       = Some (VList (first_seen (omap (produced k demo_rows) demo_rows)))
       ∧ populate_article_data (reverse demo_rows) demo_url !! k
         = Some (VList (first_seen (omap (produced k (reverse demo_rows))
                                      (reverse demo_rows)))))
  ∧ populate_article_data demo_rows demo_url !! "keywords"
    = Some (VList ((fun t => IStr (t_o t))
                     <$> filter (fun t => t_p t = "http://schema.org/keywords")
                           demo_rows))
  ∧ populate_article_data (reverse demo_rows) demo_url !! "keywords"
    = Some (VList ((fun t => IStr (t_o t))
                     <$> filter (fun t => t_p t = "http://schema.org/keywords")
                           (reverse demo_rows))).
Proof.
  apply populate_article_data_permutation.
  - symmetry. apply reverse_Permutation.
  - apply demo_rows_functional.
Defined.


Lemma rank_articles_excludes_history_witness :
  _rank_articles demo_tfidf demo_viewed demo_candidates demo_preferences
    demo_history_seen 10 = Ok demo_ranked_seen
  ∧ List.length demo_ranked_seen = 1%nat
  ∧ Forall (fun r => url_in_history r demo_history_seen = false
                     ∧ ∃ c, c ∈ demo_candidates
                            ∧ url_in_history c demo_history_seen = false
                            ∧ scored_copy c r) demo_ranked_seen.
Proof.
  assert (H : _rank_articles demo_tfidf demo_viewed demo_candidates demo_preferences
                demo_history_seen 10 = Ok demo_ranked_seen) by (vm_compute; reflexivity).
  split_and!; [exact H | vm_compute; reflexivity | ].
  exact (rank_articles_excludes_history demo_tfidf demo_viewed demo_candidates
           demo_preferences demo_history_seen 10 demo_ranked_seen H).
Defined.

Lemma rank_articles_sorted_stable_bounded_witness :
  _rank_articles demo_tfidf demo_viewed demo_candidates demo_preferences
    demo_history 10 = Ok demo_ranked
  ∧ StronglySorted (descending final_score) demo_ranked
  ∧ (0 <= 10 -> Z.of_nat (List.length demo_ranked) <= 10)
  ∧ (demo_candidates = [] -> demo_ranked = [])
  ∧ ∀ viewed_texts candidate_texts,
      demo_candidates ≠ [] ->
      all_outcomes (article_text <$> demo_viewed) = Ok viewed_texts ->
      all_outcomes (article_text <$> demo_candidates) = Ok candidate_texts ->
      match scored_articles demo_tfidf viewed_texts candidate_texts demo_candidates
              demo_preferences demo_history with
      | Raise _ => demo_ranked = []
      | Ok scored =>
          Forall2 scored_copy (unseen demo_history demo_candidates) scored
          ∧ ∃ rest,
              (demo_ranked ++ rest)%list ≡ₚ scored
              ∧ StronglySorted (descending final_score) (demo_ranked ++ rest)%list
              ∧ (∀ q, with_score q (demo_ranked ++ rest)%list = with_score q scored)
              ∧ (0 <= 10 ->
                 List.length demo_ranked
                 = Nat.min (Z.to_nat 10) (List.length scored))
      end.
Proof.
  assert (H : _rank_articles demo_tfidf demo_viewed demo_candidates demo_preferences
                demo_history 10 = Ok demo_ranked) by reflexivity.
  split; [exact H | ].
  exact (rank_articles_sorted_stable_bounded demo_tfidf demo_viewed demo_candidates
           demo_preferences demo_history 10 demo_ranked H).
Defined.

Lemma relaxation_once_witness :
  (advanced_search search_empty (strict_args demo_extracted_history) []).1
    = Ok ([], "Partial matches")
  ∧ (_get_candidate_articles search_empty demo_extracted_history []).2
    = [strict_args demo_extracted_history; relaxed_args (relax demo_extracted_history)]
  ∧ (get_recommendations demo_fromisoformat demo_datetime_lt demo_article_store
       search_empty demo_tfidf demo_history 10 []).1 = Ok [].
Proof.
  assert (H : (advanced_search search_empty (strict_args demo_extracted_history) []).1
              = Ok ([], "Partial matches")) by (vm_compute; reflexivity).
  destruct (relaxation_once demo_fromisoformat demo_datetime_lt demo_article_store
              search_empty demo_tfidf demo_extracted_history [] "Partial matches" H)
    as (Ht & _ & _ & Hg).
  split; [exact H | ]. split; [exact Ht | ].
  apply (Hg "Partial matches" demo_history 10); vm_compute; reflexivity.
Defined.

Lemma wordcount_bounds_witness :
  Forall integer_word_count (word_count_article <$> counts_example)
  ∧ Forall small_word_count (word_count_article <$> counts_example)
  ∧ _extract_user_preferences demo_fromisoformat demo_datetime_lt
      (word_count_article <$> counts_example) = Ok demo_extracted
  ∧ (nonzero_word_counts (word_count_article <$> counts_example) = [] ->
       wordcount_min demo_extracted = None ∧ wordcount_max demo_extracted = None)
  ∧ (nonzero_word_counts (word_count_article <$> counts_example) ≠ [] ->
       wordcount_min demo_extracted
       = Some (int_of_float
                 (linear_percentile
                    (nonzero_word_counts (word_count_article <$> counts_example)) 25))
       ∧ wordcount_max demo_extracted
         = Some (int_of_float
                   (linear_percentile
                      (nonzero_word_counts (word_count_article <$> counts_example)) 75))).
Proof.
  assert (H1 : Forall integer_word_count (word_count_article <$> counts_example)).
  { unfold counts_example. rewrite !fmap_cons, fmap_nil.
    repeat (apply Forall_cons; split; [vm_compute; exact I | ]).
    apply Forall_nil_2. }
  assert (H2 : _extract_user_preferences demo_fromisoformat demo_datetime_lt
                 (word_count_article <$> counts_example) = Ok demo_extracted)
    by (vm_compute; reflexivity).
  assert (H3 : Forall small_word_count (word_count_article <$> counts_example)).
  { unfold counts_example. rewrite !fmap_cons, fmap_nil.
    repeat (apply Forall_cons; split;
            [intros z Hz; vm_compute in Hz; injection Hz as <-; reflexivity | ]).
    apply Forall_nil_2. }
  split; [exact H1 | ]. split; [exact H3 | ]. split; [exact H2 | ].
  exact (wordcount_bounds demo_fromisoformat demo_datetime_lt
           (word_count_article <$> counts_example) demo_extracted H1 H3 H2).
Defined.

(** On the word counts 100, 200, 300, 400 the bounds are 175 and 325. *)
Lemma wordcount_bounds_example :
  wordcount_min demo_extracted = Some 175 ∧ wordcount_max demo_extracted = Some 325.
Proof. split; vm_compute; reflexivity. Qed.

(** ** Further properties of the materializer *)

Lemma scalar_keys_article_keys k : k ∈ scalar_keys -> k ∈ article_keys.
Proof.
  intros H. unfold scalar_keys in H. split_elem H;
    apply (bool_decide_unpack _); vm_compute; exact I.
Qed.

Lemma initial_article_keys url k :
  is_Some (initial_article url !! k) ↔ k ∈ article_keys.
Proof.
  rewrite <- not_eq_None_Some. unfold initial_article.
  rewrite <- not_elem_of_list_to_map. cbn [fmap list_fmap fst].
  split; [apply dec_stable | tauto].
Qed.

Lemma key_effect_keys act k0 v :
  wf_action act -> (k0 ∈ article_keys -> is_Some v) ->
  is_Some (key_effect act k0 v) ↔ is_Some v.
Proof.
  intros Hwf Hv. destruct act as [ | k w | k x | k x]; cbn in *; [done | | | ].
  - case_decide; [subst | done]. split; [ | done].
    intros _. by apply Hv, scalar_keys_article_keys.
  - case_decide; [ | done]. destruct v as [[ | | | | l | ] | ]; done.
  - case_decide; [ | done]. destruct v as [[ | | | | l | ] | ]; try done.
    by case_bool_decide.
Qed.

Lemma fold_key_effect_keys rs l k v :
  (is_Some v ↔ k ∈ article_keys) ->
  is_Some (fold_left (fun v t => key_effect (action_of rs t) k v) l v)
  ↔ k ∈ article_keys.
Proof.
  revert v. induction l as [ | t l IH]; intros v Hv; cbn; [done | ].
  apply IH. rewrite key_effect_keys; [done | apply wf_action_of | by intros ?%Hv].
Qed.

(** X1: a materialized record has the keys of the initial dictionary and no
    other, whatever the rows are. *)
Theorem populate_article_data_keys results url k :
  is_Some (populate_article_data results url !! k) ↔ k ∈ article_keys.
Proof.
  rewrite populate_lookup. apply fold_key_effect_keys, initial_article_keys.
Qed.

Lemma key_effect_unwritten act k0 v :
  wf_action act -> k0 ∉ scalar_keys -> k0 ∉ list_keys ->
  key_effect act k0 v = v.
Proof.
  intros Hwf Hs Hl. destruct act as [ | k w | k x | k x]; cbn in *; [done | | | ].
  - case_decide; [by subst | done].
  - case_decide; [subst | done]. exfalso. apply Hl.
    apply (bool_decide_unpack _). vm_compute. exact I.
  - case_decide; [subst | done]. exfalso. apply Hl.
    split_elem Hwf; apply (bool_decide_unpack _); vm_compute; exact I.
Qed.

(** X2: the loop writes under the scalar keys and under [keywords],
    [author], [publisher] and [image] only; every other key keeps the value
    of the initial dictionary, so [editor] stays the empty dictionary and
    [@context] the schema.org URL. *)
Theorem populate_article_data_unwritten results url :
  (∀ k, k ∉ scalar_keys -> k ∉ list_keys ->
     populate_article_data results url !! k = initial_article url !! k)
  ∧ populate_article_data results url !! "editor" = Some (VDict ∅)
  ∧ populate_article_data results url !! "@context" = Some (VStr "http://schema.org").
Proof.
  assert (H : ∀ k, k ∉ scalar_keys -> k ∉ list_keys ->
            populate_article_data results url !! k = initial_article url !! k).
  { intros k Hs Hl. rewrite populate_lookup.
    generalize (initial_article url !! k). generalize results at 1. intros rs.
    induction results as [ | t l IH]; intros v; cbn; [done | ].
    rewrite IH. apply key_effect_unwritten; [apply wf_action_of | done | done]. }
  split_and!; [exact H | | ].
  - rewrite H; [done | | ]; apply (bool_decide_unpack _); vm_compute; exact I.
  - rewrite H; [done | | ]; apply (bool_decide_unpack _); vm_compute; exact I.
Qed.

Lemma string_fields_scalar k : k ∈ string_fields -> k ∈ scalar_keys ∧ k ∉ list_keys.
Proof.
  intros H. unfold string_fields in H. split_elem H;
    (split; apply (bool_decide_unpack _); vm_compute; exact I).
Qed.

Lemma action_of_string_field rs t k :
  k ∈ string_fields -> t_p t = "http://schema.org/" +:+ k ->
  action_of rs t = ASet k (VStr (t_o t)).
Proof.
  intros Hk Hp. unfold string_fields in Hk. split_elem Hk; cbn in Hp;
    unfold action_of; rewrite Hp; vm_compute; reflexivity.
Qed.

Lemma key_effect_other_predicate rs t k v :
  k ∈ scalar_keys -> k ∉ list_keys -> t_p t ≠ "http://schema.org/" +:+ k ->
  key_effect (action_of rs t) k v = v.
Proof.
  intros Hk Hl Hp. pose proof (wf_action_of rs t) as Hwf.
  destruct (action_of rs t) as [ | k' w | k' x | k' x] eqn:E; cbn in *; [done | | | ].
  - case_decide; [subst | done]. by apply action_of_set in E as [? _].
  - case_decide; [subst | done]. exfalso. apply Hl.
    apply (bool_decide_unpack _). vm_compute. exact I.
  - case_decide; [subst | done]. exfalso. apply Hl.
    split_elem Hwf; apply (bool_decide_unpack _); vm_compute; exact I.
Qed.

Lemma string_field_fold rs l (v : option aval) k :
  k ∈ string_fields ->
  fold_left (fun v t => key_effect (action_of rs t) k v) l v
  = match last (filter (fun t => t_p t = "http://schema.org/" +:+ k) l) with
    | Some t => Some (VStr (t_o t))
    | None => v
    end.
Proof.
  intros Hk. destruct (string_fields_scalar k Hk) as [Hs Hl].
  induction l as [ | t l IH] using rev_ind; [done | ].
  rewrite fold_left_app, filter_app. cbn [fold_left]. rewrite IH. clear IH.
  rewrite filter_cons, filter_nil. case_decide as Hp.
  - rewrite last_snoc. by rewrite (action_of_string_field rs t k Hk Hp); cbn; case_decide.
  - rewrite app_nil_r. by apply key_effect_other_predicate.
Qed.

(** X3: a string field holds the object of the last row with its predicate,
    and the value of the initial dictionary when no row has it. *)
Theorem string_field_last_row results url k :
  k ∈ string_fields ->
  populate_article_data results url !! k
  = match last (filter (fun t => t_p t = "http://schema.org/" +:+ k) results) with
    | Some t => Some (VStr (t_o t))
    | None => initial_article url !! k
    end.
Proof. intros Hk. rewrite populate_lookup. by apply string_field_fold. Qed.

Lemma word_count_fold rs l (v : option aval) :
  fold_left (fun v t => key_effect (action_of rs t) "wordCount" v) l v
  = match last (omap word_count_of l) with
    | Some z => Some (VInt z)
    | None => v
    end.
Proof.
  induction l as [ | t l IH] using rev_ind; [done | ].
  rewrite fold_left_app, omap_app. cbn [fold_left]. rewrite IH. clear IH.
  cbn [omap list_omap].
  assert (Hw : word_count_of t
               = if decide (t_p t = "http://schema.org/wordCount")
                 then parse_int (t_o t) else None) by done.
  rewrite Hw. clear Hw. case_decide as Hp.
  - unfold action_of. rewrite Hp. repeat (case_decide; [done | ]). case_decide; [ | done].
    unfold py_int. destruct (parse_int (t_o t)) as [z | ].
    + by rewrite last_snoc.
    + by rewrite app_nil_r.
  - rewrite app_nil_r. apply key_effect_other_predicate; [ | | done];
      apply (bool_decide_unpack _); vm_compute; exact I.
Qed.

(** X4: when the [wordCount] rows carry ASCII literals, [wordCount] holds
    the integer of the last [wordCount] row whose object reads as an
    integer; rows whose object does not are skipped. *)
Theorem word_count_last_integer results url :
  ascii_word_counts results ->
  populate_article_data results url !! "wordCount"
  = Some (match last (omap word_count_of results) with
          | Some z => VInt z
          | None => VNone
          end).
Proof. intros _. rewrite populate_lookup, word_count_fold. by destruct (last _). Qed.

Lemma ascii_literal_check s :
  forallb (fun c => (nat_of_ascii c <? 128)%nat) (list_ascii_of_string s)
  && (String.length s <=? 4300)%nat = true ->
  ascii_literal s.
Proof.
  intros [Ha Hl]%andb_prop. split.
  - apply Forall_forall. intros c Hc.
    rewrite forallb_forall in Ha. apply Nat.ltb_lt, Ha. by apply list_elem_of_In.
  - by apply Nat.leb_le.
Qed.

(** [int] does not strip the separators U+001C-U+001F from ASCII text,
    and accepts white space, a sign and single underscores. *)
Lemma parse_int_examples :
  parse_int (file_separator +:+ "9") = None
  ∧ parse_int " 12 " = Some 12 ∧ parse_int "-07" = Some (-7)
  ∧ parse_int "1_000" = Some 1000 ∧ parse_int "1__0" = None.
Proof. split_and!; reflexivity. Qed.

Lemma word_count_last_integer_witness :
  ascii_word_counts demo_rows
  ∧ populate_article_data demo_rows demo_url !! "wordCount" = Some (VInt 500).
Proof.
  assert (H : ascii_word_counts demo_rows).
  { unfold ascii_word_counts, demo_rows.
    repeat (apply Forall_cons; split;
            [intros _; apply ascii_literal_check; vm_compute; reflexivity | ]).
    apply Forall_nil_2. }
  split; [exact H | exact (word_count_last_integer demo_rows demo_url H)].
Defined.

(** X5: a row whose predicate the loop does not test leaves the dictionary
    as it is. *)
Theorem unknown_predicate_ignored results a result :
  t_p result ∉ known_predicates -> process results a result = a.
Proof.
  intros H. unfold process, body.
  repeat (case_decide as Hp;
          [exfalso; apply H; rewrite Hp; apply (bool_decide_unpack _);
           vm_compute; exact I | clear Hp]).
  reflexivity.
Qed.

Lemma string_field_last_row_witness :
  "headline" ∈ string_fields
  ∧ populate_article_data demo_rows demo_url !! "headline"
    = match last (filter (fun t => t_p t = "http://schema.org/" +:+ "headline")
                    demo_rows) with
      | Some t => Some (VStr (t_o t))
      | None => initial_article demo_url !! "headline"
      end.
Proof.
  assert (H : "headline" ∈ string_fields)
    by (apply (bool_decide_unpack _); vm_compute; exact I).
  split; [exact H | exact (string_field_last_row demo_rows demo_url "headline" H)].
Defined.

Lemma unknown_predicate_ignored_witness :
  (t_p blank_row ∉ known_predicates)
  ∧ process demo_rows (initial_article demo_url) blank_row = initial_article demo_url.
Proof.
  assert (H : t_p blank_row ∉ known_predicates)
    by (apply (bool_decide_unpack _); vm_compute; exact I).
  split; [exact H | exact (unknown_predicate_ignored demo_rows _ blank_row H)].
Defined.

(** ** The sub-entity builders *)

Lemma table_lookup_elem tbl sp kf :
  table_lookup tbl sp = Some kf -> (sp, kf) ∈ tbl.
Proof.
  induction tbl as [ | [uri kf'] tbl IH]; cbn; [done | ].
  case_decide; [intros [= <-]; subst; left | intros Hl; right; auto].
Qed.

Lemma fold_assign_total (tbl : field_table) (init : dict) rows (d : dict) :
  Forall (fun e => e.2.2 = false ∧ is_Some (init !! e.2.1)) tbl ->
  (∀ k, is_Some (d !! k) ↔ is_Some (init !! k)) ->
  ∃ d', fold_left (fun acc row => outcome_bind acc (fun d => assign_field tbl d row))
          rows (Ok d) = Ok d'
        ∧ ∀ k, is_Some (d' !! k) ↔ is_Some (init !! k).
Proof.
  intros Htbl. revert d.
  induction rows as [ | [sp so] rows IH]; intros d Hd; cbn [fold_left outcome_bind].
  - by exists d.
  - unfold assign_field at 2. cbn [fst snd].
    destruct sp as [sp | ]; [ | by apply IH].
    destruct (table_lookup tbl sp) as [[key b] | ] eqn:E; [ | by apply IH].
    apply table_lookup_elem in E. rewrite Forall_forall in Htbl.
    destruct (Htbl _ E) as [Hb Hkey]. cbn in Hb, Hkey. subst b. apply IH.
    intros k. rewrite lookup_insert_is_Some, <- Hd.
    destruct (decide (key = k)) as [<- | ]; [ | tauto].
    apply Hd in Hkey. tauto.
Qed.

Lemma populate_entity_total (tbl : field_table) (init : dict) result results :
  Forall (fun e => e.2.2 = false ∧ is_Some (init !! e.2.1)) tbl ->
  ∃ d, populate_entity tbl init result results = Ok d
       ∧ ∀ k, is_Some (d !! k) ↔ is_Some (init !! k).
Proof. intros Htbl. by apply fold_assign_total. Qed.

(** X6: [populate_person] and [populate_organization] never raise, and the
    dictionary they return has the keys of their initial dictionary and no
    other. *)
Theorem agent_builders_total result results :
  (∃ d, populate_person result results = Ok d
        ∧ ∀ k, is_Some (d !! k) ↔ is_Some (person_data !! k))
  ∧ (∃ d, populate_organization result results = Ok d
          ∧ ∀ k, is_Some (d !! k) ↔ is_Some (organization_data !! k)).
Proof.
  split; apply populate_entity_total.
  - unfold person_fields.
    repeat (apply Forall_cons; split; [split; [reflexivity | vm_compute; eauto] | ]).
    apply Forall_nil_2.
  - unfold organization_fields.
    repeat (apply Forall_cons; split; [split; [reflexivity | vm_compute; eauto] | ]).
    apply Forall_nil_2.
Qed.

(** X7: the builders read the rows about the object of the current row
    only, and of the current row its object only. *)
Theorem builders_read_subject_rows result result' results :
  t_o result' = t_o result ->
  populate_person result' (filter (fun r => t_o r = t_o result) results)
  = populate_person result results
  ∧ populate_organization result' (filter (fun r => t_o r = t_o result) results)
    = populate_organization result results
  ∧ populate_image_data result' (filter (fun r => t_o r = t_o result) results)
    = populate_image_data result results.
Proof.
  intros Ho.
  assert (H : ∀ tbl init,
            populate_entity tbl init result' (filter (fun r => t_o r = t_o result) results)
            = populate_entity tbl init result results).
  { intros tbl init. unfold populate_entity. rewrite Ho, !sub_rows_fmap.
    by rewrite list_filter_filter_l by done. }
  split_and!; apply H.
Qed.

Lemma builders_read_subject_rows_witness :
  t_o (row "http://schema.org/editor" "http://example.org/alice")
  = t_o (row2 "http://schema.org/author" "http://example.org/alice"
           "http://schema.org/@type" "Person")
  ∧ populate_person (row "http://schema.org/editor" "http://example.org/alice")
      (filter (fun r => t_o r = "http://example.org/alice") demo_rows)
    = populate_person
        (row2 "http://schema.org/author" "http://example.org/alice"
           "http://schema.org/@type" "Person") demo_rows.
Proof.
  split; [reflexivity | ].
  exact (proj1 (builders_read_subject_rows
                  (row2 "http://schema.org/author" "http://example.org/alice"
                     "http://schema.org/@type" "Person")
                  (row "http://schema.org/editor" "http://example.org/alice")
                  demo_rows eq_refl)).
Defined.

Lemma fold_assign_raise (tbl : field_table) rows e :
  fold_left (fun acc row => outcome_bind acc (fun d => assign_field tbl d row))
    rows (Raise e) = Raise e.
Proof. induction rows as [ | r rows IH]; [done | apply IH]. Qed.

Lemma assign_field_image (d : dict) (row : option string * option string) :
  (∃ d', assign_field image_fields d row = Ok d')
  ↔ (row.1 = Some "http://schema.org/height"
     ∨ row.1 = Some "http://schema.org/width" ->
     is_Some (row.2 ≫= parse_int)).
Proof.
  destruct row as [[sp | ] so]; unfold assign_field; cbn [fst snd];
    [ | split; [intros _ [? | ?]; discriminate | eauto]].
  unfold image_fields, table_lookup.
  destruct (decide (sp = "http://schema.org/height")) as [-> | Hh];
    [ | destruct (decide (sp = "http://schema.org/width")) as [-> | Hw]].
  1, 2: unfold py_int; destruct so as [so | ]; cbn;
    [destruct (parse_int so) as [z | ] eqn:E; cbn | ].
  1, 4: split; eauto.
  1, 3: split; [intros [? [=]] | intros H; destruct H as [? [=]]; auto].
  1, 2: split; [intros [? [=]] | intros H; destruct H as [? [=]]; auto].
  repeat case_decide; (split; [intros _ [? | ?]; congruence | eauto]).
Qed.

Lemma fold_assign_image rows (d : dict) :
  (∃ d', fold_left (fun acc row =>
                      outcome_bind acc (fun d => assign_field image_fields d row))
           rows (Ok d) = Ok d')
  ↔ Forall (fun row : option string * option string =>
              row.1 = Some "http://schema.org/height"
              ∨ row.1 = Some "http://schema.org/width" ->
              is_Some (row.2 ≫= parse_int)) rows.
Proof.
  revert d. induction rows as [ | r rows IH]; intros d.
  - split; [constructor | by exists d].
  - rewrite Forall_cons, <- (assign_field_image d r). cbn [fold_left outcome_bind].
    destruct (assign_field image_fields d r) as [d1 | e].
    + rewrite IH. split; [eauto | tauto].
    + rewrite fold_assign_raise. split; [intros [? [=]] | intros [[? [=]] _]].
Qed.

Lemma image_data_needs_integers result results d :
  populate_image_data result results = Ok d -> integer_dimensions result results.
Proof.
  intros H. assert (∃ d, populate_image_data result results = Ok d) as H' by eauto.
  revert H'. clear H. unfold populate_image_data, populate_entity, integer_dimensions.
  rewrite fold_assign_image, sub_rows_fmap, Forall_fmap, !Forall_forall.
  intros H r Hr Ho. apply (H r). by apply list_elem_of_filter.
Qed.

(** X8: when the heights and widths among the rows about the image are
    ASCII literals, [populate_image_data] returns exactly when each of them
    is an integer literal; otherwise [int] raises. *)
Theorem populate_image_data_outcome result results :
  ascii_dimensions result results ->
  (∃ d, populate_image_data result results = Ok d)
  ↔ integer_dimensions result results.
Proof.
  intros _. split; [intros [d H]; by eapply image_data_needs_integers | ].
  unfold populate_image_data, populate_entity, integer_dimensions.
  rewrite fold_assign_image, sub_rows_fmap, Forall_fmap, !Forall_forall.
  intros H r [Ho Hr]%list_elem_of_filter. cbn. by apply H.
Qed.

(** X9: an image row whose image has, among ASCII literals, a height or
    width that is no integer adds nothing to the record. *)
Theorem image_with_bad_dimension_skipped results url a result :
  reachable results url a ->
  t_p result = "http://schema.org/image" ->
  ascii_dimensions result results ->
  ¬ integer_dimensions result results ->
  process results a result = a.
Proof.
  intros Hr Hp _ Hd. rewrite process_action by eauto using shaped_reachable.
  unfold action_of. rewrite Hp. repeat (case_decide; [done | ]).
  case_decide; [ | done].
  destruct (populate_image_data result results) as [d | e] eqn:E; [ | done].
  exfalso. by eapply Hd, image_data_needs_integers.
Qed.

Lemma image_with_bad_dimension_skipped_witness :
  reachable tall_image_rows demo_url (initial_article demo_url)
  ∧ ascii_dimensions tall_image_row tall_image_rows
  ∧ ¬ integer_dimensions tall_image_row tall_image_rows
  ∧ process tall_image_rows (initial_article demo_url) tall_image_row
    = initial_article demo_url.
Proof.
  assert (Hr : reachable tall_image_rows demo_url (initial_article demo_url))
    by (exists []; reflexivity).
  assert (Hd : ¬ integer_dimensions tall_image_row tall_image_rows).
  { intros H. apply Forall_cons in H as [H _].
    destruct (H eq_refl (or_introl eq_refl)) as [z Hz]. vm_compute in Hz. discriminate. }
  assert (Ha : ascii_dimensions tall_image_row tall_image_rows).
  { apply Forall_cons. split; [ | apply Forall_nil_2].
    intros _ _ s [= <-]. apply ascii_literal_check. vm_compute. reflexivity. }
  split; [exact Hr | ]. split; [exact Ha | ]. split; [exact Hd | ].
  exact (image_with_bad_dimension_skipped tall_image_rows demo_url
           (initial_article demo_url) tall_image_row Hr eq_refl Ha Hd).
Defined.

Lemma populate_image_data_outcome_witness :
  ascii_dimensions tall_image_row tall_image_rows
  ∧ ((∃ d, populate_image_data tall_image_row tall_image_rows = Ok d)
     ↔ integer_dimensions tall_image_row tall_image_rows).
Proof.
  assert (Ha : ascii_dimensions tall_image_row tall_image_rows).
  { apply Forall_cons. split; [ | apply Forall_nil_2].
    intros _ _ s [= <-]. apply ascii_literal_check. vm_compute. reflexivity. }
  split; [exact Ha | exact (populate_image_data_outcome tall_image_row tall_image_rows Ha)].
Defined.

(** ** The store and the searches *)

Lemma populate_article_data_nonempty results url :
  populate_article_data results url ≠ ∅.
Proof.
  intros H. destruct (shaped_keywords _ (shaped_populate results url)) as [l Hl].
  rewrite H in Hl. by rewrite lookup_empty in Hl.
Qed.

Lemma viewed_articles_all (fuseki_article : string -> http_result (list Tuple))
    (links : list string) :
  filter (fun article : article => article ≠ ∅)
    (get_article_by_url fuseki_article <$> links)
  = get_article_by_url fuseki_article <$> links.
Proof.
  induction links as [ | url links IH]; [done | ].
  rewrite fmap_cons, filter_cons_True by apply populate_article_data_nonempty.
  by rewrite IH.
Qed.

(** X10: an article query that fails in transport or is answered with an
    error status yields the initial record of the URL, whatever the body of
    the answer; the record is never the empty dictionary. *)
Theorem failed_lookup_gives_initial_record
    (fuseki_article : string -> http_result (list Tuple)) url :
  (fuseki_article url = ConnectionFailed
   ∨ ∃ status bindings, fuseki_article url = Response status bindings
                        ∧ 400 <= status < 600) ->
  get_article_by_url fuseki_article url = initial_article url
  ∧ get_article_by_url fuseki_article url ≠ ∅.
Proof.
  intros H. split; [ | apply populate_article_data_nonempty].
  unfold get_article_by_url, execute_sparql_query.
  destruct H as [-> | (status & bindings & -> & Hs)]; [done | ].
  assert ((400 <=? status) && (status <? 600) = true) as -> by lia. done.
Qed.

Lemma failed_lookup_gives_initial_record_witness :
  (failing_store demo_url = ConnectionFailed
   ∨ ∃ status bindings, failing_store demo_url = Response status bindings
                        ∧ 400 <= status < 600)
  ∧ get_article_by_url failing_store demo_url = initial_article demo_url
  ∧ get_article_by_url failing_store demo_url ≠ ∅.
Proof.
  assert (H : failing_store demo_url = ConnectionFailed
              ∨ ∃ status bindings, failing_store demo_url = Response status bindings
                                   ∧ 400 <= status < 600).
  { right. exists 503, demo_rows. split; [reflexivity | lia]. }
  split; [exact H | exact (failed_lookup_gives_initial_record failing_store demo_url H)].
Defined.

(** X11: [search_certain_articles] returns one record per link, in the
    order of the links: the test [if article] never drops one. *)
Theorem search_certain_articles_all
    (fuseki_article : string -> http_result (list Tuple)) (links : list string) :
  search_certain_articles fuseki_article links
  = get_article_by_url fuseki_article <$> links
  ∧ List.length (search_certain_articles fuseki_article links) = List.length links.
Proof.
  unfold search_certain_articles. rewrite viewed_articles_all.
  split; [done | apply length_fmap].
Qed.

Lemma binding_article_fold (result : gmap string string) pairs (acc : article) k :
  fold_left
    (fun article '(var, key) =>
       match result !! var with
       | Some value => <[key := VStr value]> article
       | None => article
       end) pairs acc !! k
  = acc !! k
  ∨ (k ∈ pairs.*2
     ∧ ∃ s, fold_left
              (fun article '(var, key) =>
                 match result !! var with
                 | Some value => <[key := VStr value]> article
                 | None => article
                 end) pairs acc !! k = Some (VStr s)).
Proof.
  revert acc. induction pairs as [ | [var key] pairs IH]; intros acc; cbn [fold_left].
  - by left.
  - destruct (IH (match result !! var with
                  | Some value => <[key := VStr value]> acc
                  | None => acc
                  end)) as [-> | [Hk Hs]].
    + destruct (result !! var) as [value | ]; [ | by left].
      destruct (decide (key = k)) as [-> | Hne].
      * right. rewrite lookup_insert_eq. split; [left | eauto].
      * left. by rewrite lookup_insert_ne.
    + right. split; [by right | done].
Qed.

(** A raw search result has some of the seven keys the loop of
    [execute_search_sparql_query] tests, each with a string. *)
Lemma binding_article_lookup result k :
  binding_article result !! k = None
  ∨ (k ∈ raw_keys ∧ ∃ s, binding_article result !! k = Some (VStr s)).
Proof.
  unfold binding_article.
  match goal with
  | |- context [fold_left _ ?pairs ?acc] =>
      destruct (binding_article_fold result pairs acc k) as [H | H]
  end.
  - left. by rewrite H, lookup_empty.
  - by right.
Qed.

Lemma processed_result_keys keywords_list result k :
  is_Some (processed_result keywords_list result !! k) ↔ k ∈ processed_keys.
Proof.
  rewrite <- not_eq_None_Some. unfold processed_result.
  rewrite <- not_elem_of_list_to_map. cbn [fmap list_fmap fst].
  split; [apply dec_stable | tauto].
Qed.

Lemma processed_result_keywords keywords_list result :
  processed_result keywords_list result !! "keywords"
  = Some (VList (IStr <$> keywords_list)).
Proof. reflexivity. Qed.

Lemma processed_result_string keywords_list result k :
  k ∈ processed_keys -> k ≠ "keywords" ->
  ∃ s, processed_result keywords_list (binding_article result) !! k = Some (VStr s).
Proof.
  intros Hk Hne. unfold processed_keys in Hk. split_elem Hk; try done.
  all: match goal with
       | |- ∃ s, processed_result _ _ !! ?key = _ =>
           assert (E : processed_result keywords_list (binding_article result) !! key
                       = Some (default (VStr "") (binding_article result !! key)))
             by reflexivity;
           rewrite E;
           destruct (binding_article_lookup result key) as [-> | [_ [s ->]]];
           cbn; eauto
       end.
Qed.

(** [str.split] separates at white space outside ASCII and at the
    separators U+001C-U+001F as well. *)
Lemma split_examples :
  split ("ai" +:+ nbsp +:+ "research x") = ["ai"; "research"; "x"]
  ∧ split ("ai" +:+ file_separator +:+ "research") = ["ai"; "research"]
  ∧ split "  ai   research " = ["ai"; "research"].
Proof. split_and!; reflexivity. Qed.

Lemma processed_result_shape keywords_list result :
  processed_shape keywords_list (processed_result keywords_list (binding_article result)).
Proof.
  split_and!.
  - apply processed_result_keys.
  - apply processed_result_keywords.
  - apply processed_result_string.
Qed.

Lemma keywords_list_query (keywords : aval) l :
  (if truthy (Some keywords)
   then match keywords with
        | VStr s => Ok (split s)
        | _ => Raise AttributeError
        end
   else Ok []) = Ok l ->
  l = query_keywords keywords.
Proof.
  destruct keywords as [ | s | z | q | items | d]; cbn.
  - by intros [= <-].
  - destruct (String.eqb_spec s ""); cbn; [subst | ]; by intros [= <-].
  - by destruct (z =? 0); cbn; intros [= <-].
  - by destruct (Qeq_bool q 0); cbn; intros [= <-].
  - by destruct items; intros [= <-].
  - by case_bool_decide; cbn; intros [= <-].
Qed.

(** X12: every article [search_advanced_exact_match] or
    [search_advanced_partial_match] returns has the seven keys of a processed
    result and no other (so neither [publisher] nor [wordCount]), holds the
    keywords of the query under [keywords], and a string under each other
    key, [author] included. *)
Theorem search_results_processed {datetime}
    (fuseki_search : match_kind -> search_args datetime
                     -> http_result (list (gmap string string)))
    kind args found :
  search_advanced_match fuseki_search kind args = Ok found ->
  Forall (processed_shape (query_keywords (sa_keywords _ args))) found.
Proof.
  unfold search_advanced_match, execute_search_sparql_query.
  destruct (if truthy (Some (sa_keywords _ args)) then _ else _) as [l | ] eqn:El;
    cbn [outcome_bind]; [ | done].
  apply keywords_list_query in El as ->.
  destruct (fuseki_search kind args) as [ | status bindings]; cbn [outcome_bind]; [done | ].
  case_decide; cbn [outcome_bind]; intros [= <-]; [ | constructor].
  rewrite Forall_fmap, Forall_fmap. apply Forall_forall. intros b _.
  apply processed_result_shape.
Qed.

Lemma search_results_processed_witness :
  search_advanced_match search_up ExactMatch (strict_args demo_preferences)
  = Ok demo_strict_found
  ∧ Forall (processed_shape (query_keywords (VStr "ai research"))) demo_strict_found.
Proof.
  assert (H : search_advanced_match search_up ExactMatch (strict_args demo_preferences)
              = Ok demo_strict_found) by reflexivity.
  split; [exact H | ].
  exact (search_results_processed search_up ExactMatch (strict_args demo_preferences)
           demo_strict_found H).
Defined.

(** X13: [advanced_search] answers with the exact matches and their label
    when there are some, and with the partial matches and theirs when there
    are none. *)
Theorem advanced_search_result {datetime}
    (fuseki_search : match_kind -> search_args datetime
                     -> http_result (list (gmap string string)))
    args trace found label :
  (advanced_search fuseki_search args trace).1 = Ok (found, label) ->
  (label = "Exact matches" ∧ found ≠ []
   ∧ search_advanced_match fuseki_search ExactMatch args = Ok found)
  ∨ (label = "Partial matches"
     ∧ search_advanced_match fuseki_search ExactMatch args = Ok []
     ∧ search_advanced_match fuseki_search PartialMatch args = Ok found).
Proof.
  unfold advanced_search, bind, log_call, lift, ret,
    search_advanced_exact_match, search_advanced_partial_match. cbn.
  destruct (search_advanced_match fuseki_search ExactMatch args) as [[ | a l] | ]; cbn.
  - destruct (search_advanced_match fuseki_search PartialMatch args); cbn; [ | done].
    intros [= <- <-]. by right.
  - intros [= <- <-]. by left.
  - done.
Qed.

Lemma advanced_search_result_witness :
  (advanced_search search_up (strict_args demo_preferences) []).1
  = Ok (demo_strict_found, "Exact matches")
  ∧ ("Exact matches" = "Exact matches" ∧ demo_strict_found ≠ []
     ∧ search_advanced_match search_up ExactMatch (strict_args demo_preferences)
       = Ok demo_strict_found
     ∨ "Exact matches" = "Partial matches"
       ∧ search_advanced_match search_up ExactMatch (strict_args demo_preferences)
         = Ok []
       ∧ search_advanced_match search_up PartialMatch (strict_args demo_preferences)
         = Ok demo_strict_found).
Proof.
  assert (H : (advanced_search search_up (strict_args demo_preferences) []).1
              = Ok (demo_strict_found, "Exact matches")) by reflexivity.
  split; [exact H | ].
  exact (advanced_search_result search_up (strict_args demo_preferences) []
           demo_strict_found "Exact matches" H).
Defined.

(** X14: when the strict call of the candidate source finds something,
    [_get_candidate_articles] returns it and makes no other call. *)
Theorem strict_candidates_returned {datetime}
    (fuseki_search : match_kind -> search_args datetime
                     -> http_result (list (gmap string string)))
    (preferences : Preferences datetime) trace found label :
  (advanced_search fuseki_search (strict_args preferences) trace).1 = Ok (found, label) ->
  found ≠ [] ->
  _get_candidate_articles fuseki_search preferences trace
  = (Ok found, (trace ++ [strict_args preferences])%list).
Proof.
  intros Hs Hne. unfold _get_candidate_articles, bind.
  pose proof (advanced_search_trace fuseki_search (strict_args preferences) trace)
    as [Ht _].
  destruct (advanced_search fuseki_search (strict_args preferences) trace)
    as [[[f lbl] | e] t]; cbn in Hs, Ht; [ | done].
  injection Hs as -> ->. subst t. cbn. by destruct found.
Qed.

Lemma strict_candidates_returned_witness :
  (advanced_search search_up (strict_args demo_preferences) []).1
  = Ok (demo_strict_found, "Exact matches")
  ∧ demo_strict_found ≠ []
  ∧ _get_candidate_articles search_up demo_preferences []
    = (Ok demo_strict_found, [strict_args demo_preferences]).
Proof.
  assert (H : (advanced_search search_up (strict_args demo_preferences) []).1
              = Ok (demo_strict_found, "Exact matches")) by reflexivity.
  assert (Hne : demo_strict_found ≠ []).
  { intros E. apply (f_equal List.length) in E. vm_compute in E. discriminate E. }
  split; [exact H | ]. split; [exact Hne | ].
  exact (strict_candidates_returned search_up demo_preferences [] demo_strict_found
           "Exact matches" H Hne).
Defined.

(** X15: [search_articles_by_keywords] answers with the processed exact
    matches, which carry the keywords of the query, when there are some;
    otherwise with the partial matches as the store gave them, which carry
    no [keywords] at all. *)
Theorem keyword_search_result
    (fuseki_keywords : match_kind -> list string -> http_result (list (gmap string string)))
    keywords found label :
  search_articles_by_keywords fuseki_keywords keywords = Ok (found, label) ->
  (label = "Exact matches" ∧ found ≠ []
   ∧ search_exact_match fuseki_keywords (split keywords) = Ok found
   ∧ Forall (processed_shape (split keywords)) found)
  ∨ (label = "Partial matches"
     ∧ search_exact_match fuseki_keywords (split keywords) = Ok []
     ∧ search_partial_match fuseki_keywords (split keywords) = Ok found
     ∧ Forall (fun c => c !! "keywords" = None) found).
Proof.
  unfold search_articles_by_keywords.
  destruct (search_exact_match fuseki_keywords (split keywords)) as [[ | a l] | ] eqn:Ee;
    cbn [outcome_bind]; [ | | done].
  - destruct (search_partial_match fuseki_keywords (split keywords)) as [p | ] eqn:Ep;
      cbn [outcome_bind]; [ | done].
    intros [= <- <-]. right. split_and!; try done.
    unfold search_partial_match, search_answer in Ep.
    destruct (fuseki_keywords PartialMatch (split keywords)) as [ | status bindings];
      [done | ].
    case_decide; injection Ep as <-; [ | constructor].
    rewrite Forall_fmap. apply Forall_forall. intros b _. cbn.
    destruct (binding_article_lookup b "keywords") as [H' | [Hk _]]; [done | ].
    exfalso. revert Hk. apply (bool_decide_unpack _). vm_compute. exact I.
  - intros [= <- <-]. left. split_and!; try done.
    unfold search_exact_match, search_answer in Ee.
    destruct (fuseki_keywords ExactMatch (split keywords)) as [ | status bindings];
      [done | ].
    case_decide; cbn in Ee; injection Ee as Ee; rewrite <- Ee; [ | constructor].
    rewrite Forall_fmap, Forall_fmap. apply Forall_forall. intros b _.
    apply processed_result_shape.
Qed.

Lemma keyword_search_result_witness :
  search_articles_by_keywords demo_keyword_store "ai research"
  = Ok (binding_article <$> demo_bindings, "Partial matches")
  ∧ Forall (fun c => c !! "keywords" = None) (binding_article <$> demo_bindings).
Proof.
  assert (H : search_articles_by_keywords demo_keyword_store "ai research"
              = Ok (binding_article <$> demo_bindings, "Partial matches"))
    by reflexivity.
  split; [exact H | ].
  destruct (keyword_search_result demo_keyword_store "ai research" _ _ H)
    as [[Hl _] | (_ & _ & _ & Hf)]; [discriminate Hl | exact Hf].
Defined.

(** ** Scoring and ranking *)

Lemma agent_match_cases a field name score r :
  agent_match a field name score = Ok r ->
  r = score ∨ r = (score + (3 # 10))%Q.
Proof.
  unfold agent_match.
  destruct (truthy _ && pyval_truthy _); [ | intros [= <-]; by left].
  destruct (a !! field) as [[ | | | | l | d] | ]; try (intros [= <-]; by left).
  - destruct (any_name_equals l name) as [[ | ] | ]; cbn; intros [= <-]; auto.
  - case_decide; intros [= <-]; auto.
Qed.

Lemma wordcount_match_cases {datetime} a (preferences : Preferences datetime) score r :
  wordcount_match _ a preferences score = Ok r ->
  r = score ∨ r = (score + (4 # 10))%Q.
Proof.
  unfold wordcount_match.
  destruct (truthy _ && _ && _); [ | intros [= <-]; by left].
  destruct (a !! "wordCount") as [[ | | z | q | | ] | ]; try done.
  - destruct ((_ <=? z) && _); intros [= <-]; auto.
  - destruct (Qle_bool _ q && _); intros [= <-]; auto.
Qed.

(** X16: the metadata similarity is a sum of 0.3 for the author, 0.3 for
    the publisher and 0.4 for the word count, each counted once or not at
    all; it lies between 0 and 1. *)
Theorem metadata_similarity_bounds {datetime} a (preferences : Preferences datetime) s :
  _calculate_metadata_similarity a preferences = Ok s ->
  (∃ x y z : bool,
     (s == (if x then 3 # 10 else 0) + (if y then 3 # 10 else 0)
           + (if z then 4 # 10 else 0))%Q)
  ∧ (0 <= s)%Q ∧ (s <= 1)%Q.
Proof.
  unfold _calculate_metadata_similarity.
  destruct (agent_match a "author" _ _) as [r1 | ] eqn:E1; cbn [outcome_bind]; [ | done].
  destruct (agent_match a "publisher" _ _) as [r2 | ] eqn:E2; cbn [outcome_bind]; [ | done].
  intros E3.
  apply agent_match_cases in E1, E2. apply wordcount_match_cases in E3.
  destruct E1 as [-> | ->], E2 as [-> | ->], E3 as [-> | ->].
  1: split; [exists false, false, false | ].
  3: split; [exists false, false, true | ].
  5: split; [exists false, true, false | ].
  7: split; [exists false, true, true | ].
  9: split; [exists true, false, false | ].
  11: split; [exists true, false, true | ].
  13: split; [exists true, true, false | ].
  15: split; [exists true, true, true | ].
  all: cbn; lra.
Qed.

Lemma metadata_similarity_bounds_witness :
  _calculate_metadata_similarity demo_record demo_preferences = Ok demo_metadata_score
  ∧ (demo_metadata_score == 7 # 10)%Q
  ∧ (0 <= demo_metadata_score)%Q ∧ (demo_metadata_score <= 1)%Q.
Proof.
  assert (H : _calculate_metadata_similarity demo_record demo_preferences
              = Ok demo_metadata_score) by reflexivity.
  split; [exact H | ]. split; [reflexivity | ].
  exact (proj2 (metadata_similarity_bounds demo_record demo_preferences
                  demo_metadata_score H)).
Defined.

Lemma any_name_equals_member l d name :
  Forall is_entity l -> IDict d ∈ l -> default PyNone (d !! "name") = name ->
  any_name_equals l name = Ok true.
Proof.
  intros Hl Hd Hn. induction Hl as [ | x l Hx Hl IH]; [by apply elem_of_nil in Hd | ].
  destruct x as [ | d']; [done | ]. cbn. case_decide; [done | ].
  apply IH. apply elem_of_cons in Hd as [[= ->] | Hd]; done.
Qed.

(** X17: on a record whose [author] is a list of entities, one of which
    has the preferred author name, the metadata similarity is at least
    0.3. *)
Theorem listed_author_scores {datetime} a (preferences : Preferences datetime)
    l d n s :
  a !! "author" = Some (VList l) -> Forall is_entity l -> IDict d ∈ l ->
  d !! "name" = Some (PyStr n) -> n ≠ "" -> author_name preferences = PyStr n ->
  _calculate_metadata_similarity a preferences = Ok s ->
  (3 # 10 <= s)%Q.
Proof.
  intros Ha Hl Hd Hn Hne Hp. unfold _calculate_metadata_similarity.
  assert (E1 : agent_match a "author" (author_name preferences) 0%Q
               = Ok (0 + (3 # 10))%Q).
  { unfold agent_match. rewrite Ha, Hp. cbn.
    destruct l as [ | x l']; [by apply elem_of_nil in Hd | ].
    destruct (String.eqb_spec n ""); [done | ]. cbn [negb andb].
    rewrite (any_name_equals_member (x :: l') d (PyStr n)); [done | done | done | ].
    by rewrite Hn. }
  rewrite E1. cbn [outcome_bind].
  destruct (agent_match a "publisher" _ _) as [r2 | ] eqn:E2; cbn [outcome_bind]; [ | done].
  intros E3. apply agent_match_cases in E2. apply wordcount_match_cases in E3.
  destruct E2 as [-> | ->], E3 as [-> | ->]; lra.
Qed.

Lemma listed_author_scores_witness :
  demo_record !! "author" = Some (VList [IDict demo_author])
  ∧ _calculate_metadata_similarity demo_record demo_preferences = Ok demo_metadata_score
  ∧ (3 # 10 <= demo_metadata_score)%Q.
Proof.
  assert (Ha : demo_record !! "author" = Some (VList [IDict demo_author]))
    by reflexivity.
  assert (H : _calculate_metadata_similarity demo_record demo_preferences
              = Ok demo_metadata_score) by reflexivity.
  split; [exact Ha | ]. split; [exact H | ].
  apply (listed_author_scores demo_record demo_preferences [IDict demo_author]
           demo_author "Alice" demo_metadata_score Ha).
  - repeat constructor.
  - left.
  - reflexivity.
  - discriminate.
  - reflexivity.
  - exact H.
Defined.

Lemma strings_of_strs parts :
  Forall (fun v => ∃ s, v = VStr s) parts -> ∃ ss, strings_of parts = Ok ss.
Proof.
  induction 1 as [ | v parts [s ->] _ [ss IH]]; cbn; [eauto | ].
  rewrite IH. cbn. eauto.
Qed.

Lemma text_typed_text a : text_typed a -> ∃ t, article_text a = Ok t.
Proof.
  intros (Hh & Ha & [ks Hk]). unfold article_text.
  destruct (strings_of_strs (text_parts a)) as [ss ->]; [ | cbn; eauto].
  unfold text_parts. rewrite !Forall_app. split_and!.
  - destruct Hh as [-> | [s ->]]; cbn; [constructor | ].
    destruct (negb _); repeat constructor. eauto.
  - destruct Ha as [-> | [s ->]]; cbn; [constructor | ].
    destruct (negb _); repeat constructor. eauto.
  - rewrite Hk. destruct (truthy _); [ | constructor].
    rewrite Forall_fmap, Forall_fmap. apply Forall_forall. intros k _. cbn. eauto.
Qed.

Lemma populate_text_typed results url : text_typed (populate_article_data results url).
Proof.
  split_and!.
  - rewrite populate_lookup, (string_field_fold results results _ "headline")
      by (apply (bool_decide_unpack _); vm_compute; exact I).
    destruct (last _); [right; eauto | by left].
  - rewrite populate_lookup, (string_field_fold results results _ "abstract")
      by (apply (bool_decide_unpack _); vm_compute; exact I).
    destruct (last _); [right; eauto | by left].
  - rewrite populate_keywords.
    exists (t_o <$> filter (fun t => t_p t = "http://schema.org/keywords") results).
    by rewrite <- list_fmap_compose.
Qed.

Lemma processed_text_typed ks c : processed_shape ks c -> text_typed c.
Proof.
  intros (_ & Hk & Hs). split_and!.
  - right. apply Hs; [ | done]. apply (bool_decide_unpack _). vm_compute. exact I.
  - right. apply Hs; [ | done]. apply (bool_decide_unpack _). vm_compute. exact I.
  - eauto.
Qed.

Lemma all_outcomes_texts l :
  Forall text_typed l -> ∃ ts, all_outcomes (article_text <$> l) = Ok ts.
Proof.
  induction 1 as [ | a l Ha _ [ts IH]]; cbn; [eauto | ].
  destruct (text_typed_text a Ha) as [t ->]. cbn. rewrite IH. cbn. eauto.
Qed.

(** X18: [_rank_articles] never raises on a history of materialized
    records and candidates that are processed search results: whatever goes
    wrong in the vectorizer or in the scoring is caught. *)
Theorem rank_articles_returns {datetime}
    (tfidf_cosine : list string -> outcome (list (list Q)))
    (fuseki_article : string -> http_result (list Tuple))
    history candidates (preferences : Preferences datetime)
    user_history max_recommendations :
  Forall (fun c => ∃ ks, processed_shape ks c) candidates ->
  ∃ ranked,
    _rank_articles tfidf_cosine (get_article_by_url fuseki_article <$> history)
      candidates preferences user_history max_recommendations = Ok ranked.
Proof.
  intros Hc. unfold _rank_articles. destruct candidates as [ | c cs]; [eauto | ].
  destruct (all_outcomes_texts (get_article_by_url fuseki_article <$> history))
    as [vt ->].
  { rewrite Forall_fmap. apply Forall_forall. intros url _. apply populate_text_typed. }
  destruct (all_outcomes_texts (c :: cs)) as [ct ->].
  { eapply Forall_impl; [exact Hc | ]. intros x [ks Hx]. by eapply processed_text_typed. }
  cbn [outcome_bind]. destruct (outcome_bind (tfidf_cosine _) _); eauto.
Qed.

Lemma rank_articles_returns_witness :
  Forall (fun c => ∃ ks, processed_shape ks c) demo_candidates
  ∧ ∃ ranked,
      _rank_articles demo_tfidf (get_article_by_url demo_article_store <$> demo_history)
        demo_candidates demo_preferences demo_history 10 = Ok ranked.
Proof.
  assert (H : Forall (fun c => ∃ ks, processed_shape ks c) demo_candidates).
  { unfold demo_candidates. rewrite Forall_fmap, Forall_fmap.
    apply Forall_forall. intros b _. eexists. apply processed_result_shape. }
  split; [exact H | ].
  exact (rank_articles_returns demo_tfidf demo_article_store demo_history
           demo_candidates demo_preferences demo_history 10 H).
Defined.

Lemma score_articles_scored {datetime} similarity_scores
    (preferences : Preferences datetime) user_history idx candidates scored :
  score_articles similarity_scores preferences user_history idx candidates = Ok scored ->
  Forall (fun r =>
            ∃ c s m,
              c ∈ candidates
              ∧ _calculate_metadata_similarity c preferences = Ok m
              ∧ r = <["final_score" := VFloat ((7 # 10) * s + (3 # 10) * m)%Q]>
                      (<["similarity_score" := VFloat s]> c)) scored.
Proof.
  revert idx scored. induction candidates as [ | c cs IH]; intros idx scored; cbn.
  - intros [= <-]. constructor.
  - assert (Hmono : ∀ scored',
              Forall (fun r =>
                        ∃ c0 s m,
                          c0 ∈ cs
                          ∧ _calculate_metadata_similarity c0 preferences = Ok m
                          ∧ r = <["final_score" := VFloat ((7 # 10) * s + (3 # 10) * m)%Q]>
                                  (<["similarity_score" := VFloat s]> c0)) scored' ->
              Forall (fun r =>
                        ∃ c0 s m,
                          c0 ∈ c :: cs
                          ∧ _calculate_metadata_similarity c0 preferences = Ok m
                          ∧ r = <["final_score" := VFloat ((7 # 10) * s + (3 # 10) * m)%Q]>
                                  (<["similarity_score" := VFloat s]> c0)) scored').
    { intros scored' H0. eapply Forall_impl; [exact H0 | ].
      intros r (c0 & s & m & Hc & Hm & ->).
      exists c0, s, m. split_and!; [by right | done | done]. }
    destruct (url_in_history c user_history); cbn [negb].
    { intros H. by eapply Hmono, IH. }
    destruct (similarity_scores !! idx) as [s | ]; cbn; [ | done].
    destruct (_calculate_metadata_similarity c preferences) as [m | ] eqn:Em; cbn; [ | done].
    destruct (score_articles _ _ _ _ cs) as [rest | ] eqn:E; cbn; [ | done].
    intros [= <-]. constructor; [ | by eapply Hmono, IH].
    exists c, s, m. split_and!; [left | done | done].
Qed.

(** X19: every article [_rank_articles] returns is a candidate with two
    scores added, and its final score is 0.7 times its similarity score plus
    0.3 times the metadata similarity of the candidate. *)
Theorem ranked_final_score {datetime}
    (tfidf_cosine : list string -> outcome (list (list Q)))
    viewed candidates (preferences : Preferences datetime)
    user_history max_recommendations ranked :
  _rank_articles tfidf_cosine viewed candidates preferences user_history
    max_recommendations = Ok ranked ->
  Forall (fun r =>
            ∃ c s m,
              c ∈ candidates
              ∧ _calculate_metadata_similarity c preferences = Ok m
              ∧ r = <["final_score" := VFloat ((7 # 10) * s + (3 # 10) * m)%Q]>
                      (<["similarity_score" := VFloat s]> c)
              ∧ r !! "similarity_score" = Some (VFloat s)
              ∧ final_score r = ((7 # 10) * s + (3 # 10) * m)%Q) ranked.
Proof.
  unfold _rank_articles. destruct candidates as [ | c cs]; [intros [= <-]; constructor | ].
  generalize (c :: cs). clear c cs. intros candidates.
  destruct (all_outcomes (article_text <$> viewed)) as [vt | ];
    cbn [outcome_bind]; [ | done].
  destruct (all_outcomes (article_text <$> candidates)) as [ct | ];
    cbn [outcome_bind]; [ | done].
  destruct (tfidf_cosine _) as [m | ]; cbn [outcome_bind];
    [ | intros [= <-]; constructor].
  destruct (score_articles _ _ _ _ _) as [scored | ] eqn:E; cbn [outcome_bind];
    [ | intros [= <-]; constructor].
  intros [= <-].
  destruct (slice_to_take (sorted_reverse final_score scored) max_recommendations)
    as [n ->].
  apply Forall_take. unfold sorted_reverse. rewrite sort_by_perm.
  apply score_articles_scored in E. eapply Forall_impl; [exact E | ].
  intros r (c & s & m' & Hc & Hm & ->). exists c, s, m'.
  split_and!; try done.
  - by rewrite lookup_insert_ne, lookup_insert_eq.
  - unfold final_score. by rewrite lookup_insert_eq.
Qed.

Lemma demo_ranking :
  _rank_articles demo_tfidf demo_viewed demo_candidates demo_preferences
    demo_history 10 = Ok demo_ranked.
Proof. reflexivity. Defined.

Lemma demo_ranked_nonempty : demo_ranked ≠ [].
Proof.
  intros E. apply (f_equal List.length) in E. vm_compute in E. discriminate E.
Defined.

Lemma ranked_final_score_witness :
  _rank_articles demo_tfidf demo_viewed demo_candidates demo_preferences
    demo_history 10 = Ok demo_ranked
  ∧ Forall (fun r =>
              ∃ c s m,
                c ∈ demo_candidates
                ∧ _calculate_metadata_similarity c demo_preferences = Ok m
                ∧ r = <["final_score" := VFloat ((7 # 10) * s + (3 # 10) * m)%Q]>
                        (<["similarity_score" := VFloat s]> c)
                ∧ r !! "similarity_score" = Some (VFloat s)
                ∧ final_score r = ((7 # 10) * s + (3 # 10) * m)%Q) demo_ranked.
Proof.
  split; [exact demo_ranking | ].
  exact (ranked_final_score demo_tfidf demo_viewed demo_candidates demo_preferences
           demo_history 10 demo_ranked demo_ranking).
Defined.

(** X20: when [_rank_articles] returns something and the bound is at
    least the number of candidates outside the history, it returns every
    such candidate, scored. *)
Theorem rank_articles_complete {datetime}
    (tfidf_cosine : list string -> outcome (list (list Q)))
    viewed candidates (preferences : Preferences datetime)
    user_history max_recommendations ranked :
  _rank_articles tfidf_cosine viewed candidates preferences user_history
    max_recommendations = Ok ranked ->
  ranked ≠ [] ->
  Z.of_nat (List.length (unseen user_history candidates)) <= max_recommendations ->
  ∃ scored,
    Forall2 scored_copy (unseen user_history candidates) scored ∧ (ranked ≡ₚ scored).
Proof.
  intros H Hne Hmax.
  apply rank_articles_inv in H as [-> | (scored & n & Hs & -> & _)]; [done | ].
  exists scored. split; [done | ].
  apply Forall2_length in Hs. unfold slice_to.
  assert ((0 <=? max_recommendations) = true) as -> by lia.
  rewrite take_ge.
  - apply sort_by_perm.
  - unfold sorted_reverse. rewrite sort_by_length. lia.
Qed.

Lemma rank_articles_complete_witness :
  _rank_articles demo_tfidf demo_viewed demo_candidates demo_preferences
    demo_history 10 = Ok demo_ranked
  ∧ (demo_ranked ≠ [])
  ∧ Z.of_nat (List.length (unseen demo_history demo_candidates)) <= 10
  ∧ ∃ scored,
      Forall2 scored_copy (unseen demo_history demo_candidates) scored
      ∧ (demo_ranked ≡ₚ scored).
Proof.
  assert (Hmax : Z.of_nat (List.length (unseen demo_history demo_candidates)) <= 10)
    by (vm_compute; discriminate).
  split; [exact demo_ranking | ]. split; [exact demo_ranked_nonempty | ].
  split; [exact Hmax | ].
  exact (rank_articles_complete demo_tfidf demo_viewed demo_candidates demo_preferences
           demo_history 10 demo_ranked demo_ranking demo_ranked_nonempty Hmax).
Defined.

(** ** Preferences *)










(** *** [Counter] and [most_common] *)

Section Counting.
Context {A : Type} `{EqDecision A}.

Lemma count_in_counter_add (x : A) c y :
  count_in (counter_add x c) y
  = (count_in c y + if decide (y = x) then 1 else 0)%nat.
Proof.
  induction c as [ | [z n] c IH]; cbn.
  - by case_decide.
  - destruct (decide (x = z)) as [-> | Hxz]; cbn.
    + destruct (decide (y = z)); lia.
    + destruct (decide (y = z)) as [-> | Hyz].
      * rewrite decide_False by done. lia.
      * apply IH.
Qed.

Lemma occurrences_cons (x y : A) l :
  occurrences y (x :: l) = ((if decide (y = x) then 1 else 0) + occurrences y l)%nat.
Proof.
  unfold occurrences. rewrite filter_cons.
  destruct (decide (x = y)) as [-> | Hne].
  - by rewrite decide_True.
  - by rewrite decide_False by done.
Qed.

Lemma count_in_fold (l : list A) c y :
  count_in (fold_left (fun c x => counter_add x c) l c) y
  = (count_in c y + occurrences y l)%nat.
Proof.
  revert c. induction l as [ | x l IH]; intros c; cbn [fold_left].
  - unfold occurrences. cbn. lia.
  - rewrite IH, count_in_counter_add, occurrences_cons. lia.
Qed.

Lemma count_in_Counter (l : list A) y : count_in (Counter l) y = occurrences y l.
Proof. unfold Counter. by rewrite count_in_fold. Qed.

Lemma counter_add_keys (x : A) c :
  (counter_add x c).*1 = if decide (x ∈ c.*1) then c.*1 else (c.*1 ++ [x])%list.
Proof.
  induction c as [ | [z n] c IH]; cbn.
  - rewrite decide_False; [done | apply not_elem_of_nil].
  - destruct (decide (x = z)) as [-> | Hxz]; cbn.
    + rewrite decide_True; [done | left].
    + rewrite IH. destruct (decide (x ∈ c.*1)) as [Hin | Hin].
      * rewrite decide_True; [done | by right].
      * rewrite decide_False; [done | ].
        intros [? | ?]%elem_of_cons; done.
Qed.

Lemma counter_fold_keys (l : list A) c :
  NoDup c.*1 ->
  NoDup (fold_left (fun c x => counter_add x c) l c).*1
  ∧ ∀ k, k ∈ (fold_left (fun c x => counter_add x c) l c).*1 ↔ k ∈ c.*1 ∨ k ∈ l.
Proof.
  revert c. induction l as [ | x l IH]; intros c Hc; cbn [fold_left].
  - split; [done | ]. intros k. rewrite elem_of_nil. tauto.
  - destruct (IH (counter_add x c)) as [Hnd Hk].
    { rewrite counter_add_keys. case_decide; [done | ].
      apply NoDup_app. split_and!; [done | | apply NoDup_singleton].
      intros y Hy ->%list_elem_of_singleton. done. }
    split; [done | ]. intros k. rewrite Hk, counter_add_keys, elem_of_cons.
    case_decide as Hin.
    + split; [tauto | ]. intros [? | [-> | ?]]; tauto.
    + rewrite elem_of_app, list_elem_of_singleton. tauto.
Qed.

Lemma Counter_keys (l : list A) :
  NoDup (Counter l).*1 ∧ ∀ k, k ∈ (Counter l).*1 ↔ k ∈ l.
Proof.
  destruct (counter_fold_keys l []) as [Hnd Hk]; [constructor | ].
  split; [done | ]. intros k. unfold Counter. rewrite Hk. cbn. rewrite elem_of_nil. tauto.
Qed.

Lemma count_in_elem (c : list (A * nat)) k n :
  NoDup c.*1 -> (k, n) ∈ c -> count_in c k = n.
Proof.
  induction c as [ | [z m] c IH]; cbn; intros Hnd Hin; [by apply elem_of_nil in Hin | ].
  apply NoDup_cons in Hnd as [Hz Hnd].
  apply elem_of_cons in Hin as [[= -> ->] | Hin]; [by rewrite decide_True | ].
  rewrite decide_False; [by apply IH | ].
  intros ->. apply Hz. apply list_elem_of_fmap. by exists (z, n).
Qed.

Lemma count_in_bound (c : list (A * nat)) n y :
  Forall (fun e => (e.2 <= n)%nat) c -> (count_in c y <= n)%nat.
Proof.
  induction 1 as [ | [z m] c Hm _ IH]; cbn; [lia | ].
  by case_decide.
Qed.

Lemma insert_by_count_sorted (x : A * nat) l :
  StronglySorted (fun a b : A * nat => (b.2 <= a.2)%nat) l ->
  StronglySorted (fun a b : A * nat => (b.2 <= a.2)%nat)
    (insert_by (fun y x : A * nat => (x.2 <? y.2)%nat) x l).
Proof.
  induction 1 as [ | y l Hs IH Hall]; cbn [insert_by]; [repeat constructor | ].
  destruct (x.2 <? y.2)%nat eqn:E.
  - apply Nat.ltb_lt in E. constructor; [done | ].
    rewrite insert_by_perm. constructor; [lia | done].
  - apply Nat.ltb_ge in E. constructor; [by constructor | ].
    constructor; [done | ].
    eapply Forall_impl; [exact Hall | ]. cbn. intros z Hz. lia.
Qed.

Lemma sort_by_count_sorted (c : list (A * nat)) :
  StronglySorted (fun a b : A * nat => (b.2 <= a.2)%nat)
    (sort_by (fun y x : A * nat => (x.2 <? y.2)%nat) c).
Proof.
  induction c as [ | x c IH]; cbn; [constructor | by apply insert_by_count_sorted].
Qed.

Lemma sorted_take_drop (R : A * nat -> A * nat -> Prop) n (s : list (A * nat)) a b :
  StronglySorted R s -> a ∈ take n s -> b ∈ drop n s -> R a b.
Proof.
  intros Hs. revert n. induction Hs as [ | x s Hs IH Hall]; intros n Ha Hb.
  - rewrite take_nil in Ha. by apply elem_of_nil in Ha.
  - destruct n as [ | n]; cbn in *; [by apply elem_of_nil in Ha | ].
    apply elem_of_cons in Ha as [-> | Ha]; [ | by eapply IH].
    rewrite Forall_forall in Hall. apply Hall. by eapply subseteq_drop.
Qed.

(** The keys [most_common n] selects: at most [n], distinct, taken from
    the list, and each at least as frequent as any value left out. *)
Lemma most_common_keys n (l : list A) :
  let ks := (most_common n (Counter l)).*1 in
  (List.length ks <= n)%nat
  ∧ NoDup ks
  ∧ (∀ k, k ∈ ks -> k ∈ l)
  ∧ ∀ k y, k ∈ ks -> y ∉ ks -> (occurrences y l <= occurrences k l)%nat.
Proof.
  destruct (Counter_keys l) as [Hnd Hkeys].
  pose proof (sort_by_count_sorted (Counter l)) as Hs.
  pose proof (sort_by_perm (fun y x : A * nat => (x.2 <? y.2)%nat) (Counter l)) as Hp.
  unfold most_common. set (s := sort_by _ (Counter l)) in *. cbn zeta.
  assert (Hnds : NoDup s.*1) by by rewrite Hp.
  split_and!.
  - rewrite length_fmap, length_take. lia.
  - rewrite fmap_take. eapply sublist_NoDup; [exact Hnds | apply sublist_take].
  - intros k Hk. apply Hkeys. rewrite <- Hp, <- (take_drop n s), fmap_app.
    apply elem_of_app. by left.
  - intros k y Hk Hy. rewrite <- !count_in_Counter.
    apply list_elem_of_fmap in Hk as [[k' m] [-> Hk]]. cbn in *.
    assert ((k', m) ∈ Counter l) as Hkc.
    { rewrite <- Hp, <- (take_drop n s). apply elem_of_app. by left. }
    rewrite (count_in_elem (Counter l) k' m Hnd Hkc).
    destruct (decide (y ∈ (Counter l).*1)) as [Hin | Hout].
    + apply list_elem_of_fmap in Hin as [[y' m'] [-> Hyc]]. cbn in *.
      rewrite (count_in_elem (Counter l) y' m' Hnd Hyc).
      rewrite <- Hp, <- (take_drop n s) in Hyc.
      apply elem_of_app in Hyc as [Hyt | Hyd].
      * exfalso. apply Hy. apply list_elem_of_fmap. by exists (y', m').
      * by apply (sorted_take_drop _ n s (k', m) (y', m') Hs).
    + assert (count_in (Counter l) y = 0%nat) as ->; [ | lia].
      rewrite count_in_Counter. unfold occurrences.
      destruct (filter (λ y0, y0 = y) l) as [ | z l'] eqn:E; [done | ].
      exfalso. apply Hout, Hkeys.
      assert (z ∈ filter (λ y0, y0 = y) l) as Hz by (rewrite E; left).
      apply list_elem_of_filter in Hz as [-> Hz]. done.
Qed.

Lemma most_common_nonempty n (l : list A) :
  (0 < n)%nat -> l ≠ [] -> (most_common n (Counter l)).*1 ≠ [].
Proof.
  intros Hn Hl. destruct (Counter_keys l) as [_ Hkeys].
  pose proof (sort_by_perm (fun y x : A * nat => (x.2 <? y.2)%nat) (Counter l)) as Hp.
  unfold most_common. destruct (sort_by _ (Counter l)) as [ | e s].
  - apply Permutation_nil_l in Hp. destruct l as [ | x l]; [done | ].
    assert (x ∈ (Counter (x :: l)).*1) as Hx by (apply Hkeys; left).
    rewrite <- Hp in Hx. by apply elem_of_nil in Hx.
  - destruct n; [lia | done].
Qed.

End Counting.

Lemma most_common_first {A} `{EqDecision A} (l : list A) :
  (l = [] -> head ((most_common 1 (Counter l)).*1) = None)
  ∧ (l ≠ [] ->
     ∃ x, head ((most_common 1 (Counter l)).*1) = Some x
          ∧ x ∈ l ∧ ∀ y, (occurrences y l <= occurrences x l)%nat).
Proof.
  split; [by intros -> | ]. intros Hl.
  destruct (most_common_keys 1 l) as (Hlen & _ & Hin & Hmax).
  pose proof (most_common_nonempty 1 l ltac:(lia) Hl) as Hne.
  cbn zeta in *. destruct ((most_common 1 (Counter l)).*1) as [ | x [ | x' ks]];
    [done | | cbn in Hlen; lia].
  exists x. split_and!; [done | apply Hin; left | ].
  intros y. destruct (decide (y = x)) as [-> | Hyx]; [lia | ].
  apply Hmax; [left | ]. by intros ->%list_elem_of_singleton.
Qed.

(** X22: the preferred author is a name that occurs most often among the
    author names of the history, and [None] when the history has none. *)
Theorem preferred_author_most_common {datetime}
    (fromisoformat : string -> option datetime)
    (datetime_lt : datetime -> datetime -> outcome bool)
    viewed_articles (preferences : Preferences datetime) authors :
  _extract_user_preferences fromisoformat datetime_lt viewed_articles = Ok preferences ->
  concat_outcomes ((fun a => collect_names a "author") <$> viewed_articles) = Ok authors ->
  (authors = [] -> author_name preferences = PyNone)
  ∧ (authors ≠ [] ->
     author_name preferences ∈ authors
     ∧ ∀ y, (occurrences y authors <= occurrences (author_name preferences) authors)%nat).
Proof.
  unfold _extract_user_preferences. intros H Ha. revert H.
  destruct (concat_outcomes (collect_date _ _ <$> viewed_articles)) as [? | ];
    cbn [outcome_bind]; [ | done].
  rewrite Ha. cbn [outcome_bind].
  do 4 match goal with
       | |- outcome_bind ?x _ = _ -> _ =>
           destruct x as [? | ]; cbn [outcome_bind]; [ | done]
       end.
  intros [= <-]. cbn [author_name].
  destruct (most_common_first authors) as [Hnil Hcons].
  split; intros Hl.
  - by rewrite Hnil.
  - destruct (Hcons Hl) as (x & -> & Hx & Hmax). done.
Qed.

Lemma demo_history_extraction :
  _extract_user_preferences demo_fromisoformat demo_datetime_lt demo_viewed_history
  = Ok demo_extracted_history.
Proof. reflexivity. Defined.

Lemma preferred_author_most_common_witness :
  _extract_user_preferences demo_fromisoformat demo_datetime_lt demo_viewed_history
  = Ok demo_extracted_history
  ∧ concat_outcomes ((fun a => collect_names a "author") <$> demo_viewed_history)
    = Ok [PyStr "Alice"]
  ∧ author_name demo_extracted_history ∈ [PyStr "Alice"]
  ∧ ∀ y, (occurrences y [PyStr "Alice"]
          <= occurrences (author_name demo_extracted_history) [PyStr "Alice"])%nat.
Proof.
  assert (Ha : concat_outcomes ((fun a => collect_names a "author") <$> demo_viewed_history)
               = Ok [PyStr "Alice"]) by reflexivity.
  split; [exact demo_history_extraction | ]. split; [exact Ha | ].
  apply (proj2 (preferred_author_most_common demo_fromisoformat demo_datetime_lt
                  demo_viewed_history demo_extracted_history [PyStr "Alice"]
                  demo_history_extraction Ha)).
  discriminate.
Defined.

Lemma as_strings_nil l : as_strings l = Ok [] -> l = [].
Proof.
  destruct l as [ | [s | d] l]; cbn; [done | | done].
  by destruct (as_strings l).
Qed.

(** X23: the preferred keywords are at most ten distinct keywords of the
    history, each at least as frequent there as any keyword left out; with
    no keyword in the history the field stays the empty list. *)
Theorem preferred_keywords {datetime}
    (fromisoformat : string -> option datetime)
    (datetime_lt : datetime -> datetime -> outcome bool)
    viewed_articles (preferences : Preferences datetime) kws :
  _extract_user_preferences fromisoformat datetime_lt viewed_articles = Ok preferences ->
  as_strings (List.concat (collect_keywords <$> viewed_articles)) = Ok kws ->
  (kws = [] -> keywords preferences = VList [])
  ∧ (kws ≠ [] ->
     ∃ ks, keywords preferences = VStr (join ks)
           ∧ (List.length ks <= 10)%nat
           ∧ NoDup ks
           ∧ (∀ k, k ∈ ks -> k ∈ kws)
           ∧ ∀ k y, k ∈ ks -> y ∉ ks -> (occurrences y kws <= occurrences k kws)%nat).
Proof.
  unfold _extract_user_preferences. intros H Hk. revert H.
  do 5 match goal with
       | |- outcome_bind ?x _ = _ -> _ =>
           destruct x as [? | ]; cbn [outcome_bind]; [ | done]
       end.
  destruct (List.concat (collect_keywords <$> viewed_articles)) as [ | x l] eqn:E.
  - cbn in Hk. injection Hk as <-. cbn [outcome_bind]. intros [= <-]. by split.
  - rewrite Hk. cbn [outcome_bind]. intros [= <-]. cbn [keywords].
    split; intros Hl.
    + subst kws. by apply as_strings_nil in Hk.
    + exists ((most_common 10 (Counter kws)).*1). split; [done | ].
      apply (most_common_keys 10 kws).
Qed.

Lemma preferred_keywords_witness :
  _extract_user_preferences demo_fromisoformat demo_datetime_lt demo_viewed_history
  = Ok demo_extracted_history
  ∧ as_strings (List.concat (collect_keywords <$> demo_viewed_history))
    = Ok ["ai"; "research"]
  ∧ ∃ ks, keywords demo_extracted_history = VStr (join ks)
          ∧ (List.length ks <= 10)%nat
          ∧ NoDup ks
          ∧ (∀ k, k ∈ ks -> k ∈ ["ai"; "research"])
          ∧ ∀ k y, k ∈ ks -> y ∉ ks ->
                   (occurrences y ["ai"; "research"]
                    <= occurrences k ["ai"; "research"])%nat.
Proof.
  assert (Hk : as_strings (List.concat (collect_keywords <$> demo_viewed_history))
               = Ok ["ai"; "research"]) by reflexivity.
  split; [exact demo_history_extraction | ]. split; [exact Hk | ].
  apply (proj2 (preferred_keywords demo_fromisoformat demo_datetime_lt
                  demo_viewed_history demo_extracted_history ["ai"; "research"]
                  demo_history_extraction Hk)).
  discriminate.
Defined.

(** ** The pipeline on materialized records *)

Lemma action_of_add_entity rs t k x : action_of rs t = AAddNew k x -> is_entity x.
Proof. split_action_of; intros [= <- <-] || discriminate; done. Qed.

Lemma populate_agents results url k :
  k ∈ ["author"; "publisher"] ->
  ∃ l, populate_article_data results url !! k = Some (VList l) ∧ Forall is_entity l.
Proof.
  intros Hk. rewrite populate_lookup.
  assert (Hinit : ∃ l, initial_article url !! k = Some (VList l) ∧ Forall is_entity l).
  { exists []. split; [ | constructor]. split_elem Hk; reflexivity. }
  revert Hinit. generalize (initial_article url !! k). generalize results at 1.
  intros rs. induction results as [ | t l IH]; intros v Hv; cbn [fold_left]; [done | ].
  apply IH. destruct Hv as (l0 & -> & Hl0).
  pose proof (wf_action_of rs t) as Hwf.
  destruct (action_of rs t) as [ | k' w | k' x | k' x] eqn:E; cbn.
  - eauto.
  - case_decide; [subst k' | eauto]. cbn in Hwf.
    split_elem Hk; absurd_elem Hwf.
  - case_decide; [subst k' | eauto]. cbn in Hwf. subst k.
    absurd_elem Hk.
  - case_decide; [subst k' | eauto]. case_bool_decide; [eauto | ].
    eexists. split; [done | ]. apply Forall_app. split; [done | ].
    constructor; [ | constructor]. by eapply action_of_add_entity.
Qed.

Lemma populate_history_typed results url :
  small_word_count_rows results ->
  history_typed (populate_article_data results url).
Proof.
  intros Hsmall. split_and!.
  - rewrite populate_lookup, word_count_fold.
    destruct (last _) as [z | ] eqn:E; [right | by left].
    exists z. split; [done | ].
    apply last_Some_elem_of, list_elem_of_omap in E as (t & Ht & Hz).
    unfold small_word_count_rows in Hsmall. rewrite Forall_forall in Hsmall.
    unfold word_count_of in Hz. case_decide as Hp; [ | done].
    by apply (Hsmall t Ht Hp).
  - rewrite populate_lookup, (string_field_fold results results _ "datePublished")
      by (apply (bool_decide_unpack _); vm_compute; exact I).
    destruct (last _); [right; eauto | by left].
  - rewrite populate_keywords.
    exists (t_o <$> filter (fun t => t_p t = "http://schema.org/keywords") results).
    by rewrite <- list_fmap_compose.
  - apply populate_agents. apply (bool_decide_unpack _). vm_compute. exact I.
  - apply populate_agents. apply (bool_decide_unpack _). vm_compute. exact I.
Qed.

Lemma concat_outcomes_ok {A} (l : list (outcome (list A))) :
  Forall (fun r => ∃ xs, r = Ok xs) l -> ∃ xs, concat_outcomes l = Ok xs.
Proof.
  induction 1 as [ | r l [xs ->] _ [ys IH]]; cbn; [eauto | ].
  rewrite IH. cbn. eauto.
Qed.

Lemma agent_names_ok l : Forall is_entity l -> ∃ names, agent_names l = Ok names.
Proof.
  induction 1 as [ | x l Hx _ [names IH]]; cbn; [eauto | ].
  destruct x as [ | d]; [done | ]. rewrite IH. cbn. destruct (pyval_truthy _); eauto.
Qed.

Lemma collect_names_ok a field l :
  a !! field = Some (VList l) -> Forall is_entity l ->
  ∃ names, collect_names a field = Ok names.
Proof.
  intros Ha Hl. unfold collect_names. rewrite Ha.
  destruct (truthy _); [by apply agent_names_ok | eauto].
Qed.

Lemma as_numbers_ok l :
  Forall (fun v => ∃ z, v = VInt z ∧ Z.abs z < 2 ^ 50) l ->
  ∃ ns, as_numbers l = Ok ns.
Proof.
  induction 1 as [ | v l (z & -> & Hz) _ [ns IH]]; cbn [as_numbers]; [eauto | ].
  rewrite small_below_float_limit by done. rewrite IH. cbn. eauto.
Qed.

Lemma as_strings_ok l :
  Forall (fun x => ∃ s, x = IStr s) l -> ∃ ss, as_strings l = Ok ss.
Proof.
  induction 1 as [ | x l [s ->] _ [ss IH]]; cbn; [eauto | ].
  rewrite IH. cbn. eauto.
Qed.

Lemma py_min_ok {datetime} (datetime_lt : datetime -> datetime -> outcome bool) cur l :
  (∀ a b, ∃ r, datetime_lt a b = Ok r) -> ∃ d, py_min datetime datetime_lt cur l = Ok d.
Proof.
  intros Hlt. revert cur. induction l as [ | x l IH]; intros cur; cbn; [eauto | ].
  destruct (Hlt x cur) as [r ->]. cbn. apply IH.
Qed.

Lemma py_max_ok {datetime} (datetime_lt : datetime -> datetime -> outcome bool) cur l :
  (∀ a b, ∃ r, datetime_lt a b = Ok r) -> ∃ d, py_max datetime datetime_lt cur l = Ok d.
Proof.
  intros Hlt. revert cur. induction l as [ | x l IH]; intros cur; cbn; [eauto | ].
  destruct (Hlt cur x) as [r ->]. cbn. apply IH.
Qed.

Lemma extract_typed {datetime} (fromisoformat : string -> option datetime)
    (datetime_lt : datetime -> datetime -> outcome bool) viewed_articles :
  (∀ a b, ∃ r, datetime_lt a b = Ok r) ->
  Forall history_typed viewed_articles ->
  ∃ preferences,
    _extract_user_preferences fromisoformat datetime_lt viewed_articles = Ok preferences.
Proof.
  intros Hlt Hty. unfold _extract_user_preferences.
  destruct (concat_outcomes_ok (collect_date _ fromisoformat <$> viewed_articles))
    as [dates ->].
  { rewrite Forall_fmap. eapply Forall_impl; [exact Hty | ].
    intros a (_ & Hd & _). cbn. unfold collect_date.
    destruct Hd as [-> | [s ->]]; cbn; [eauto | ].
    destruct (negb _); [ | eauto]. destruct (fromisoformat _); eauto. }
  cbn [outcome_bind].
  destruct (concat_outcomes_ok ((fun a => collect_names a "author") <$> viewed_articles))
    as [authors ->].
  { rewrite Forall_fmap. eapply Forall_impl; [exact Hty | ].
    intros a (_ & _ & _ & [l [Ha Hl]] & _). cbn. by eapply collect_names_ok. }
  cbn [outcome_bind].
  destruct (concat_outcomes_ok ((fun a => collect_names a "publisher") <$> viewed_articles))
    as [publishers ->].
  { rewrite Forall_fmap. eapply Forall_impl; [exact Hty | ].
    intros a (_ & _ & _ & _ & [l [Ha Hl]]). cbn. by eapply collect_names_ok. }
  cbn [outcome_bind].
  assert (Hwc : Forall (fun v => ∃ z, v = VInt z ∧ Z.abs z < 2 ^ 50)
                  (List.concat (collect_word_count <$> viewed_articles))).
  { apply Forall_concat. rewrite Forall_fmap. eapply Forall_impl; [exact Hty | ].
    intros a (Hw & _). cbn. unfold collect_word_count.
    destruct Hw as [-> | (z & -> & Hz)]; cbn; [constructor | ].
    destruct (negb _); repeat constructor. eauto. }
  assert (Hkw : Forall (fun x => ∃ s, x = IStr s)
                  (List.concat (collect_keywords <$> viewed_articles))).
  { apply Forall_concat. rewrite Forall_fmap. eapply Forall_impl; [exact Hty | ].
    intros a (_ & _ & [ks Hk] & _). cbn. unfold collect_keywords. rewrite Hk.
    destruct (truthy _); [ | constructor].
    rewrite Forall_fmap. apply Forall_forall. intros k _. cbn. eauto. }
  destruct (as_numbers_ok _ Hwc) as [ns Hns].
  destruct (as_strings_ok _ Hkw) as [ss Hss].
  destruct (List.concat (collect_word_count <$> viewed_articles)) as [ | w ws].
  all: try rewrite Hns; cbn [outcome_bind].
  all: destruct dates as [ | d ds]; cbn [outcome_bind].
  all: try (destruct (py_min_ok datetime_lt d ds Hlt) as [lo ->]; cbn [outcome_bind];
            destruct (py_max_ok datetime_lt d ds Hlt) as [hi ->]; cbn [outcome_bind]).
  all: destruct (List.concat (collect_keywords <$> viewed_articles)) as [ | k ks].
  all: try rewrite Hss; cbn [outcome_bind]; eauto.
Qed.

(** X24: on a history of records materialized from rows whose word counts
    are ASCII literals of integers of magnitude below [2^50],
    [_extract_user_preferences] returns, provided the comparison of
    publish dates does. *)
Theorem extract_preferences_returns {datetime}
    (fromisoformat : string -> option datetime)
    (datetime_lt : datetime -> datetime -> outcome bool)
    (fuseki_article : string -> http_result (list Tuple)) (history : list string) :
  (∀ a b, ∃ r, datetime_lt a b = Ok r) ->
  Forall (fun url => small_word_count_rows (execute_sparql_query fuseki_article url))
    history ->
  ∃ preferences,
    _extract_user_preferences fromisoformat datetime_lt
      (get_article_by_url fuseki_article <$> history) = Ok preferences.
Proof.
  intros Hlt Hsmall. apply extract_typed; [done | ].
  rewrite Forall_fmap. eapply Forall_impl; [exact Hsmall | ].
  intros url Hurl. by apply populate_history_typed.
Qed.

Lemma extract_preferences_returns_witness :
  (∀ a b, ∃ r, demo_datetime_lt a b = Ok r)
  ∧ Forall (fun url => small_word_count_rows (execute_sparql_query demo_article_store url))
      demo_history
  ∧ ∃ preferences,
      _extract_user_preferences demo_fromisoformat demo_datetime_lt
        (get_article_by_url demo_article_store <$> demo_history) = Ok preferences.
Proof.
  assert (H : ∀ a b, ∃ r, demo_datetime_lt a b = Ok r)
    by (intros a b; eexists; reflexivity).
  assert (Hs : Forall (fun url =>
                         small_word_count_rows (execute_sparql_query demo_article_store url))
                 demo_history).
  { apply Forall_cons. split; [ | apply Forall_nil_2].
    change (small_word_count_rows demo_rows). unfold small_word_count_rows, demo_rows.
    repeat (apply Forall_cons; split;
            [intros _; split;
             [apply ascii_literal_check; vm_compute; reflexivity
             | intros z Hz; vm_compute in Hz;
               first [discriminate Hz | injection Hz as <-; reflexivity]] | ]).
    apply Forall_nil_2. }
  split; [exact H | ]. split; [exact Hs | ].
  exact (extract_preferences_returns demo_fromisoformat demo_datetime_lt
           demo_article_store demo_history H Hs).
Defined.

Lemma ranked_outside_history {datetime}
    (tfidf_cosine : list string -> outcome (list (list Q)))
    viewed candidates (preferences : Preferences datetime)
    user_history max_recommendations ranked :
  _rank_articles tfidf_cosine viewed candidates preferences user_history
    max_recommendations = Ok ranked ->
  Forall (fun r => url_in_history r user_history = false) ranked
  ∧ (0 <= max_recommendations ->
     Z.of_nat (List.length ranked) <= max_recommendations).
Proof.
  intros H. apply rank_articles_inv in H as [-> | (scored & n & Hs & Hslice & Htake)].
  { split; [constructor | cbn; lia]. }
  split.
  - rewrite Htake. apply Forall_take. unfold sorted_reverse. rewrite sort_by_perm.
    assert (Hu : Forall (fun c => url_in_history c user_history = false)
                   (unseen user_history candidates)).
    { unfold unseen. apply Forall_forall. intros c Hc.
      apply list_elem_of_In, filter_In in Hc as [_ Hc]. by apply negb_true_iff. }
    clear Hslice Htake. induction Hs as [ | c r cs rs Hcr _ IH]; [constructor | ].
    apply Forall_cons in Hu as [Hc Hu]. constructor; [ | by apply IH].
    by rewrite (scored_copy_history c r user_history Hcr).
  - intros Hk. rewrite Hslice. by apply slice_to_length.
Qed.

(** X25: whatever [get_recommendations] returns, no recommendation has a
    URL of the history, and there are at most [max_recommendations] of them
    when that bound is not negative. *)
Theorem recommendations_outside_history {datetime}
    (fromisoformat : string -> option datetime)
    (datetime_lt : datetime -> datetime -> outcome bool)
    (fuseki_article : string -> http_result (list Tuple))
    (fuseki_search : match_kind -> search_args datetime
                     -> http_result (list (gmap string string)))
    (tfidf_cosine : list string -> outcome (list (list Q)))
    user_history max_recommendations trace recommendations :
  (get_recommendations fromisoformat datetime_lt fuseki_article fuseki_search
     tfidf_cosine user_history max_recommendations trace).1 = Ok recommendations ->
  Forall (fun r => url_in_history r user_history = false) recommendations
  ∧ (0 <= max_recommendations ->
     Z.of_nat (List.length recommendations) <= max_recommendations).
Proof.
  unfold get_recommendations.
  destruct (filter _ (get_article_by_url fuseki_article <$> user_history))
    as [ | a viewed].
  { cbn. intros [= <-]. split; [constructor | cbn; lia]. }
  generalize (a :: viewed). clear a viewed. intros viewed.
  unfold bind, lift.
  destruct (_extract_user_preferences _ _ viewed) as [preferences | ]; [ | done].
  destruct (_get_candidate_articles fuseki_search preferences trace)
    as [[candidates | ] t]; [ | done].
  cbn [fst]. apply ranked_outside_history.
Qed.

Lemma recommendations_outside_history_witness :
  (get_recommendations demo_fromisoformat demo_datetime_lt demo_article_store
     search_up demo_tfidf demo_history 10 []).1 = Ok demo_ranked
  ∧ Forall (fun r => url_in_history r demo_history = false) demo_ranked
  ∧ (0 <= 10 -> Z.of_nat (List.length demo_ranked) <= 10).
Proof.
  assert (H : (get_recommendations demo_fromisoformat demo_datetime_lt
                 demo_article_store search_up demo_tfidf demo_history 10 []).1
              = Ok demo_ranked) by reflexivity.
  split; [exact H | ].
  exact (recommendations_outside_history demo_fromisoformat demo_datetime_lt
           demo_article_store search_up demo_tfidf demo_history 10 [] demo_ranked H).
Defined.

(** X26: with an empty history [get_recommendations] returns the empty
    list and asks the candidate source nothing; with a history whose
    preferences are extracted, the first call it makes is the strict one,
    followed by at most one more. *)
Theorem recommendations_calls {datetime}
    (fromisoformat : string -> option datetime)
    (datetime_lt : datetime -> datetime -> outcome bool)
    (fuseki_article : string -> http_result (list Tuple))
    (fuseki_search : match_kind -> search_args datetime
                     -> http_result (list (gmap string string)))
    (tfidf_cosine : list string -> outcome (list (list Q)))
    max_recommendations trace :
  get_recommendations fromisoformat datetime_lt fuseki_article fuseki_search
    tfidf_cosine [] max_recommendations trace = (Ok [], trace)
  ∧ ∀ user_history preferences,
      user_history ≠ [] ->
      _extract_user_preferences fromisoformat datetime_lt
        (get_article_by_url fuseki_article <$> user_history) = Ok preferences ->
      ∃ rest,
        (get_recommendations fromisoformat datetime_lt fuseki_article fuseki_search
           tfidf_cosine user_history max_recommendations trace).2
        = (trace ++ strict_args preferences :: rest)%list
        ∧ (List.length rest <= 1)%nat.
Proof.
  split; [reflexivity | ]. intros user_history preferences Hne He.
  unfold get_recommendations. rewrite viewed_articles_all.
  destruct user_history as [ | url urls]; [done | ].
  rewrite fmap_cons in *. unfold bind at 1. unfold lift at 1. rewrite He.
  unfold bind at 1. unfold _get_candidate_articles. unfold bind at 1.
  pose proof (advanced_search_trace fuseki_search (strict_args preferences) trace)
    as [Ht1 _].
  destruct (advanced_search fuseki_search (strict_args preferences) trace)
    as [[[found label] | e] t1]; cbn [fst snd] in *; subst t1;
    [ | exists []; split; [done | cbn; lia]].
  destruct found as [ | c cs].
  - unfold bind at 1.
    pose proof (advanced_search_trace fuseki_search
                  (relaxed_args (relax preferences))
                  (trace ++ [strict_args preferences])%list) as [Ht2 _].
    destruct (advanced_search fuseki_search (relaxed_args (relax preferences))
                (trace ++ [strict_args preferences])%list)
      as [[[found' label'] | e] t2]; cbn [fst snd] in *; subst t2.
    + exists [relaxed_args (relax preferences)]. unfold ret, lift. cbn.
      by rewrite <- app_assoc.
    + exists [relaxed_args (relax preferences)]. cbn. by rewrite <- app_assoc.
  - exists []. unfold ret, lift. cbn. split; [done | lia].
Qed.

Lemma recommendations_calls_witness :
  get_recommendations demo_fromisoformat demo_datetime_lt demo_article_store
    search_empty demo_tfidf [] 10 [] = (Ok [], [])
  ∧ ∃ rest,
      (get_recommendations demo_fromisoformat demo_datetime_lt demo_article_store
         search_empty demo_tfidf demo_history 10 []).2
      = ([] ++ strict_args demo_extracted_history :: rest)%list
      ∧ (List.length rest <= 1)%nat.
Proof.
  assert (Hne : demo_history ≠ []) by discriminate.
  assert (He : _extract_user_preferences demo_fromisoformat demo_datetime_lt
                 (get_article_by_url demo_article_store <$> demo_history)
               = Ok demo_extracted_history) by reflexivity.
  destruct (recommendations_calls demo_fromisoformat demo_datetime_lt demo_article_store
              search_empty demo_tfidf 10 []) as [H0 H1].
  split; [exact H0 | exact (H1 demo_history demo_extracted_history Hne He)].
Defined.
